(** * Verification of the graph construction core of caseploeg/graph

    Shallow embedding of
    - [codebase_rag/services/json_service.py]   ([JsonFileIngestor]),
    - [codebase_rag/node_text_extractor.py]     ([NodeTextExtractor]),
    - [codebase_rag/parsers/call_processor.py]  ([CallProcessor]),
    - [codebase_rag/utils/file_enumerator.py]   ([FileEnumerator]). *)

From Stdlib Require Import String Ascii List ZArith Bool Lia.
From Stdlib Require Import Permutation Sorted DecimalString.
From Stdlib Require OrdersEx DecimalZ.
Import ListNotations.
Open Scope string_scope.

(** ** Python values *)
Module Py.

(** A scalar property value ([PropertyValue]); [None] is kept because
    callers may pass it and the ingestor filters it out. List and float
    values are not modelled: the results below are about runs whose
    property values are [str], [int], [bool] or [None]. *)
Inductive PropertyValue :=
| PStr (s : string)
| PInt (z : Z)
| PBool (b : bool)
| PNone.

(** A [PropertyDict]: a Python dict with string keys, in insertion order. *)
Definition PropertyDict := list (string * PropertyValue).

(** [dict.get(k, default)]. *)
Fixpoint get (d : PropertyDict) (k : string) (default : PropertyValue)
  : PropertyValue :=
  match d with
  | [] => default
  | (k', v) :: d' => if String.eqb k k' then v else get d' k default
  end.

(** Generic lookup in a dict represented as an association list. *)
Fixpoint lookup {V} (d : list (string * V)) (k : string) : option V :=
  match d with
  | [] => None
  | (k', v) :: d' => if String.eqb k k' then Some v else lookup d' k
  end.

(** [d[k] = v]: updates in place when [k] is present, else appends
    (Python dicts keep insertion order). *)
Fixpoint dict_set {V} (d : list (string * V)) (k : string) (v : V)
  : list (string * V) :=
  match d with
  | [] => [(k, v)]
  | (k', v') :: d' =>
      if String.eqb k k' then (k, v) :: d' else (k', v') :: dict_set d' k v
  end.

Definition is_none (v : PropertyValue) : bool :=
  match v with PNone => true | _ => false end.

(** [str(v)] as used inside f-strings. *)
Definition str (v : PropertyValue) : string :=
  match v with
  | PStr s => s
  | PInt z => NilZero.string_of_int (Z.to_int z)
  | PBool true => "True"
  | PBool false => "False"
  | PNone => "None"
  end.

(** Truthiness, as used by [a or b or c]. *)
Definition truthy (v : PropertyValue) : bool :=
  match v with
  | PStr s => negb (String.eqb s "")
  | PInt z => negb (Z.eqb z 0)
  | PBool b => b
  | PNone => false
  end.

Definition py_or (a b : PropertyValue) : PropertyValue :=
  if truthy a then a else b.

(** Numeric view of [int] and [bool] ([bool] is a subclass of [int]). *)
Definition as_int (v : PropertyValue) : option Z :=
  match v with
  | PInt z => Some z
  | PBool b => Some (if b then 1%Z else 0%Z)
  | _ => None
  end.

(** [v1 == v2]. *)
Definition eqv (v1 v2 : PropertyValue) : bool :=
  match v1, v2 with
  | PStr a, PStr b => String.eqb a b
  | PNone, PNone => true
  | _, _ =>
      match as_int v1, as_int v2 with
      | Some a, Some b => Z.eqb a b
      | _, _ => false
      end
  end.

(** [v1 < v2]; [None] stands for the [TypeError] raised when comparing a
    [str] with an [int]. *)
Definition ltv (v1 v2 : PropertyValue) : option bool :=
  match v1, v2 with
  | PStr a, PStr b => Some (String.ltb a b)
  | _, _ =>
      match as_int v1, as_int v2 with
      | Some a, Some b => Some (Z.ltb a b)
      | _, _ => None
      end
  end.

(** [list.sort(key=...)]: a stable sort driven by [<] only. A comparison
    that raises aborts the sort ([None]). Elements are inserted in list
    order after every element they are not smaller than, so equal keys
    keep their original relative order as in Python. *)
Section Sort.
Context {A : Type} (lt : A -> A -> option bool).

Fixpoint insert_by (x : A) (l : list A) : option (list A) :=
  match l with
  | [] => Some [x]
  | y :: ys =>
      match lt x y with
      | None => None
      | Some true => Some (x :: y :: ys)
      | Some false =>
          match insert_by x ys with
          | None => None
          | Some ys' => Some (y :: ys')
          end
      end
  end.

Fixpoint sort_aux (acc l : list A) : option (list A) :=
  match l with
  | [] => Some acc
  | x :: xs =>
      match insert_by x acc with
      | None => None
      | Some acc' => sort_aux acc' xs
      end
  end.

Definition sort_by (l : list A) : option (list A) := sort_aux [] l.

(** "nondecreasing": no element is smaller than its predecessor. *)
Definition not_below (a b : A) : Prop := lt b a = Some false.

End Sort.

End Py.

(** ** [JsonFileIngestor] *)
Module Ingestor.
Import Py.

(** Values of the [NodeLabel] enum used by the code (the enum module is
    not part of the sources; these are the members named in
    [node_text_extractor.py] and [json_service.py]). [NodeLabel(label)]
    raises [ValueError] for any other string. *)
Definition node_labels : list string :=
  ["Project"; "Package"; "Folder"; "File"; "Module"; "Class"; "Function";
   "Method"; "Interface"; "Enum"; "Type"; "Union"; "ExternalPackage"].

Definition mem (s : string) (l : list string) : bool :=
  existsb (String.eqb s) l.

Definition PATH_BASED_LABELS : list string := ["Folder"; "File"].
Definition NAME_BASED_LABELS : list string := ["ExternalPackage"; "Project"].

(** [_get_node_id_key]. *)
Definition get_node_id_key (label : string) (properties : PropertyDict)
  : string :=
  if negb (mem label node_labels) then
    label ++ ":" ++ str (get properties "qualified_name"
                           (get properties "name" (PStr "")))
  else if mem label PATH_BASED_LABELS then
    label ++ ":" ++ str (get properties "path" (PStr ""))
  else if mem label NAME_BASED_LABELS then
    label ++ ":" ++ str (get properties "name" (PStr ""))
  else label ++ ":" ++ str (get properties "qualified_name" (PStr "")).

(** A stored node [{node_id, labels: [label], properties}]. *)
Record Node := mkNode {
  node_id : nat;
  labels : list string;
  properties : PropertyDict
}.

(** A buffered relationship [{from_key, to_key, type, properties}]. *)
Record BufferedRel := mkBufferedRel {
  from_key : string;
  to_key : string;
  rel_type : string;
  rel_props : PropertyDict
}.

(** The ingestor's fields; [flush_all] runs after all workers finished, and
    every [ensure_*] call runs under the lock, so a run is a sequence of
    calls in the order they acquired the lock. *)
Record State := mkState {
  nodes : list (string * Node);
  relationships : list BufferedRel;
  node_counter : nat;
  node_id_lookup : list (string * nat)
}.

Definition init : State := mkState [] [] 0 [].

(** The dict comprehension [{k: v for k, v in properties.items() if v is not None}]. *)
Definition non_null (properties : PropertyDict) : PropertyDict :=
  filter (fun kv => negb (is_none (snd kv))) properties.

(** [ensure_node_batch]. *)
Definition ensure_node_batch (s : State) (label : string)
  (properties : PropertyDict) : State :=
  let node_key := get_node_id_key label properties in
  if String.eqb node_key "" then s
  else match lookup (nodes s) node_key with
       | Some _ => s
       | None =>
           let nid := node_counter s in
           mkState
             (dict_set (nodes s) node_key (mkNode nid [label] (non_null properties)))
             (relationships s)
             (S nid)
             (dict_set (node_id_lookup s) node_key nid)
       end.

(** [ensure_relationship_batch]; an endpoint spec is
    [(label, key_property, value)]. *)
Definition ensure_relationship_batch (s : State)
  (from_spec : string * string * PropertyValue) (rel_type : string)
  (to_spec : string * string * PropertyValue)
  (properties : option PropertyDict) : State :=
  let '(from_label, _, from_val) := from_spec in
  let '(to_label, _, to_val) := to_spec in
  let from_node_key := from_label ++ ":" ++ str from_val in
  let to_node_key := to_label ++ ":" ++ str to_val in
  mkState (nodes s)
    (relationships s ++
       [mkBufferedRel from_node_key to_node_key rel_type
          (match properties with Some p => p | None => [] end)])
    (node_counter s) (node_id_lookup s).

(** A call on the shared ingestor. *)
Inductive Op :=
| EnsureNode (label : string) (properties : PropertyDict)
| EnsureRel (from_spec : string * string * PropertyValue) (rel_type : string)
    (to_spec : string * string * PropertyValue) (properties : option PropertyDict).

Definition step (s : State) (o : Op) : State :=
  match o with
  | EnsureNode l p => ensure_node_batch s l p
  | EnsureRel f t g p => ensure_relationship_batch s f t g p
  end.

Definition run (ops : list Op) : State := fold_left step ops init.

(** A resolved relationship [{from_id, to_id, type, properties}]. *)
Record Rel := mkRel {
  from_id : nat;
  to_id : nat;
  type : string;
  out_props : PropertyDict
}.

Record Metadata := mkMetadata {
  total_nodes : nat;
  total_relationships : nat;
  exported_at : string
}.

(** The [graph_data] object handed to [json.dump]. *)
Record GraphData := mkGraphData {
  gd_nodes : list Node;
  gd_relationships : list Rel;
  gd_metadata : Metadata
}.

(** The node sort key [(labels[0], qn or name or path)]; stored nodes have
    [labels = [label]]. *)
Definition node_sort_key (n : Node) : string * PropertyValue :=
  (hd "" (labels n),
   py_or (get (properties n) "qualified_name" (PStr ""))
     (py_or (get (properties n) "name" (PStr ""))
        (get (properties n) "path" (PStr "")))).

(** Tuple [<] on [(str, value)]: first differing position decides. *)
Definition node_key_lt (a b : string * PropertyValue) : option bool :=
  if String.eqb (fst a) (fst b) then
    if eqv (snd a) (snd b) then Some false else ltv (snd a) (snd b)
  else Some (String.ltb (fst a) (fst b)).

Definition node_lt (n1 n2 : Node) : option bool :=
  node_key_lt (node_sort_key n1) (node_sort_key n2).

(** Tuple [<] on [(from_id, type, to_id)]. *)
Definition rel_lt (r1 r2 : Rel) : option bool :=
  Some (if Nat.eqb (from_id r1) (from_id r2) then
          if String.eqb (type r1) (type r2) then Nat.ltb (to_id r1) (to_id r2)
          else String.ltb (type r1) (type r2)
        else Nat.ltb (from_id r1) (from_id r2)).

(** One iteration of the resolution loop of [flush_all]. *)
Definition resolve (lookup_tbl : list (string * nat)) (r : BufferedRel)
  : option Rel :=
  match lookup lookup_tbl (from_key r), lookup lookup_tbl (to_key r) with
  | Some f, Some t => Some (mkRel f t (rel_type r) (rel_props r))
  | _, _ => None
  end.

Definition resolved_relationships (s : State) : list Rel :=
  flat_map (fun r => match resolve (node_id_lookup s) r with
                     | Some x => [x] | None => [] end) (relationships s).

(** The [TypeError] of a failed node sort. *)
Inductive Error := TypeError.

(** [flush_all]: [now] is [datetime.now(UTC).isoformat()]. The result is the
    object written by [json.dump(..., sort_keys=True)]. *)
Definition flush_all (s : State) (now : string) : GraphData + Error :=
  match sort_by node_lt (map snd (nodes s)) with
  | None => inr TypeError
  | Some nodes_list =>
      match sort_by rel_lt (resolved_relationships s) with
      | None => inr TypeError
      | Some rels =>
          inl (mkGraphData nodes_list rels
                 (mkMetadata (length nodes_list) (length rels) now))
      end
  end.

(** Vocabulary for stating properties of runs. *)

(** The first [ensure_node_batch] call of a run whose identity key is [k]. *)
Fixpoint first_node_op (ops : list Op) (k : string)
  : option (string * PropertyDict) :=
  match ops with
  | [] => None
  | EnsureNode l p :: ops' =>
      if String.eqb (get_node_id_key l p) k then Some (l, p)
      else first_node_op ops' k
  | EnsureRel _ _ _ _ :: ops' => first_node_op ops' k
  end.

Definition is_node_op (o : Op) : bool :=
  match o with EnsureNode _ _ => true | EnsureRel _ _ _ _ => false end.

(** The [ensure_node_batch] calls of a run, and its
    [ensure_relationship_batch] calls, each in their order. *)
Definition node_ops (ops : list Op) : list Op := filter is_node_op ops.
Definition rel_ops (ops : list Op) : list Op :=
  filter (fun o => negb (is_node_op o)) ops.

(** An export with its [exported_at] timestamp blanked out. *)
Definition without_timestamp (r : GraphData + Error) : GraphData + Error :=
  match r with
  | inl g =>
      inl (mkGraphData (gd_nodes g) (gd_relationships g)
             (mkMetadata (total_nodes (gd_metadata g))
                (total_relationships (gd_metadata g)) ""))
  | inr e => inr e
  end.

End Ingestor.

(** ** [NodeTextExtractor] *)
Module Extractor.
Import Py.

(** Exceptions that can escape the extractor. *)
Inductive PyExc :=
| UnicodeDecodeError
| IsADirectoryError
| PermissionError
| RecursionError.

(** A Python call either returns a value or raises. *)
Inductive Outcome (A : Type) :=
| Ok (a : A)
| Raise (e : PyExc).
Arguments Ok {A} a.
Arguments Raise {A} e.

(** A node and a relationship of the loaded graph. *)
Record GraphNode := mkGraphNode {
  gnode_id : nat;
  glabels : list string;
  gproperties : PropertyDict
}.

Record GraphRel := mkGraphRel {
  gfrom_id : nat;
  gto_id : nat;
  gtype : string
}.

Record Graph := mkGraph {
  gnodes : list GraphNode;
  grels : list GraphRel
}.

(** Modelled from the spec: [GraphLoader.get_node_by_id] (the loader is not
    part of the sources) returns the node with that id, or [None]. *)
Definition get_node_by_id (g : Graph) (id : nat) : option GraphNode :=
  find (fun n => Nat.eqb (gnode_id n) id) (gnodes g).

(** Modelled from the spec: [GraphLoader.get_incoming_relationships]
    returns the relationships ending at the node, in file order. *)
Definition get_incoming_relationships (g : Graph) (id : nat) : list GraphRel :=
  filter (fun r => Nat.eqb (gto_id r) id) (grels g).

(** A file system entry under the repository root: readable UTF-8 text, or
    an entry for which [exists()] holds but [read_text] raises (a
    directory, a file that is not valid UTF-8, a file without read
    permission). *)
Inductive FsEntry :=
| Text (content : string)
| Unreadable (e : PyExc).

Definition FileSystem := list (string * FsEntry).

Record Env := mkEnv {
  graph : Graph;
  fs : FileSystem;
  repo_base_path : string
}.

(** [_file_cache]. *)
Definition Cache := list (string * option string).

Definition LABELS_WITH_LINE_INFO : list string :=
  ["Function"; "Method"; "Class"; "Interface"; "Enum"; "Type"; "Union"].
Definition LABELS_WITH_PATH : list string := ["Module"; "File"].
Definition LABELS_STRUCTURAL : list string :=
  ["Project"; "Package"; "Folder"; "ExternalPackage"].

Definition meets (labels l : list string) : bool :=
  existsb (fun x => existsb (String.eqb x) l) labels.

Inductive Category := Code | FileCat | Structural | Unknown.

(** [_get_node_category]. *)
Definition get_node_category (node : GraphNode) : Category :=
  if meets (glabels node) LABELS_WITH_LINE_INFO then Code
  else if meets (glabels node) LABELS_WITH_PATH then FileCat
  else if meets (glabels node) LABELS_STRUCTURAL then Structural
  else Unknown.

(** [_find_parent_via_relationship]: the source of the first incoming
    relationship of that type (or [None] when that node is missing). *)
Definition find_parent_via_relationship (g : Graph) (node_id : nat)
  (rel_type : string) : option GraphNode :=
  match find (fun r => String.eqb (gtype r) rel_type)
          (get_incoming_relationships g node_id) with
  | Some r => get_node_by_id g (gfrom_id r)
  | None => None
  end.

(** [_find_module_for_node]. It recurses once per enclosing scope;
    [frames] is the number of nested Python calls left before CPython
    raises [RecursionError]. *)
Fixpoint find_module_for_node (g : Graph) (frames : nat) (node : GraphNode)
  : Outcome (option GraphNode) :=
  match frames with
  | O => Raise RecursionError
  | S frames' =>
      let labels := glabels node in
      if meets labels LABELS_WITH_PATH then Ok (Some node)
      else if meets labels ["Method"] then
        match find_parent_via_relationship g (gnode_id node) "DEFINES_METHOD" with
        | None => Ok None
        | Some class_node => find_module_for_node g frames' class_node
        end
      else if meets labels ["Function"; "Class"] then
        match find_parent_via_relationship g (gnode_id node) "DEFINES" with
        | None => Ok None
        | Some parent => find_module_for_node g frames' parent
        end
      else Ok None
  end.

(** [repo_base_path / str(rel_path)]. *)
Definition path_join (base rel : string) : string :=
  match rel with
  | EmptyString => base
  | String "/" _ => rel
  | _ => base ++ "/" ++ rel
  end.

(** [_get_file_path]. *)
Definition get_file_path (env : Env) (module_node : GraphNode) : option string :=
  match get (gproperties module_node) "path" PNone with
  | PNone => None
  | rel_path => Some (path_join (repo_base_path env) (str rel_path))
  end.

(** [_read_file]: cached by path; a missing file is cached as [None]; a
    failing [read_text] raises and caches nothing. *)
Definition read_file (env : Env) (cache : Cache) (file_path : string)
  : Outcome (option string) * Cache :=
  match lookup cache file_path with
  | Some c => (Ok c, cache)
  | None =>
      match lookup (fs env) file_path with
      | None => (Ok None, dict_set cache file_path None)
      | Some (Unreadable e) => (Raise e, cache)
      | Some (Text content) =>
          (Ok (Some content), dict_set cache file_path (Some content))
      end
  end.

(** [str.splitlines()] on ASCII text: breaks at [\n], [\r], [\r\n],
    [\v], [\f], [\x1c], [\x1d] and [\x1e]; a final line break does not
    start an empty line. Python also breaks at U+0085, U+2028 and U+2029,
    which 7-bit ASCII text does not contain. *)
Definition is_line_break (c : ascii) : bool :=
  match nat_of_ascii c with
  | 10 | 11 | 12 | 13 | 28 | 29 | 30 => true
  | _ => false
  end.

Fixpoint splitlines_aux (s cur : string) : list string :=
  match s with
  | EmptyString => if String.eqb cur "" then [] else [cur]
  | String c rest =>
      if Ascii.eqb c (ascii_of_nat 13) then
        match rest with
        | String c' rest' =>
            if Ascii.eqb c' (ascii_of_nat 10) then cur :: splitlines_aux rest' ""
            else cur :: splitlines_aux rest ""
        | EmptyString => [cur]
        end
      else if is_line_break c then cur :: splitlines_aux rest ""
      else splitlines_aux rest (cur ++ String c "")
  end.

Definition splitlines (s : string) : list string := splitlines_aux s "".

(** Python's [lst[a:b]] with negative indices counted from the end. *)
Definition slice_index (len : Z) (i : Z) : Z :=
  if (i <? 0)%Z then Z.max 0 (len + i) else Z.min i len.

Definition py_slice {A} (l : list A) (a b : Z) : list A :=
  let len := Z.of_nat (length l) in
  let a' := slice_index len a in
  let b' := slice_index len b in
  firstn (Z.to_nat (b' - a')) (skipn (Z.to_nat a') l).

(** [_extract_lines]. *)
Definition extract_lines (content : string) (start_line end_line : Z) : string :=
  let lines := splitlines content in
  let start_idx := Z.max 0 (start_line - 1) in
  let end_idx := Z.min (Z.of_nat (length lines)) end_line in
  String.concat (String "010" EmptyString) (py_slice lines start_idx end_idx).

(** [NodeTextResult]. *)
Record NodeTextResult := mkResult {
  node_id : nat;
  qualified_name : option string;
  file_path : option string;
  start_line : option Z;
  end_line : option Z;
  code_chunk : option string;
  file_content : option string;
  error : option string
}.

Definition nat_str (n : nat) : string := str (PInt (Z.of_nat n)).

Definition failure (node_id : nat) (qn : option string) (fp : option string)
  (msg : string) : NodeTextResult :=
  mkResult node_id qn fp None None None None (Some msg).

(** [extract]; the graph is already loaded. *)
Definition extract (env : Env) (frames : nat) (cache : Cache) (node_id : nat)
  : Outcome NodeTextResult * Cache :=
  match get_node_by_id (graph env) node_id with
  | None =>
      (Ok (failure node_id None None
             ("Node with id " ++ nat_str node_id ++ " not found")), cache)
  | Some node =>
      let qn_str := match get (gproperties node) "qualified_name" PNone with
                    | PStr s => Some s | _ => None end in
      let node_type := hd "unknown" (glabels node) in
      match get_node_category node with
      | Structural =>
          (Ok (failure node_id qn_str None
                 ("Structural node type '" ++ node_type ++
                  "' has no extractable content")), cache)
      | Unknown =>
          (Ok (failure node_id qn_str None
                 ("Unknown node type '" ++ node_type ++ "'")), cache)
      | category =>
          match find_module_for_node (graph env) frames node with
          | Raise e => (Raise e, cache)
          | Ok None =>
              (Ok (failure node_id qn_str None
                     "Could not find module/file for node"), cache)
          | Ok (Some module_node) =>
              match get_file_path env module_node with
              | None =>
                  (Ok (failure node_id qn_str None
                         "Module node has no path property"), cache)
              | Some file_path =>
                  match read_file env cache file_path with
                  | (Raise e, cache') => (Raise e, cache')
                  | (Ok None, cache') =>
                      (Ok (failure node_id qn_str (Some file_path)
                             ("Could not read file: " ++ file_path)), cache')
                  | (Ok (Some file_content), cache') =>
                      match category with
                      | FileCat =>
                          (Ok (mkResult node_id qn_str (Some file_path) (Some 1%Z)
                                 (Some (Z.of_nat (length (splitlines file_content))))
                                 (Some file_content) (Some file_content) None),
                           cache')
                      | _ =>
                          let start_line :=
                            as_int (get (gproperties node) "start_line" PNone) in
                          let end_line :=
                            as_int (get (gproperties node) "end_line" PNone) in
                          let code_chunk :=
                            match start_line, end_line with
                            | Some a, Some b => Some (extract_lines file_content a b)
                            | _, _ => None
                            end in
                          (Ok (mkResult node_id qn_str (Some file_path) start_line
                                 end_line code_chunk (Some file_content) None),
                           cache')
                      end
                  end
              end
          end
      end
  end.

(** [extract_batch]: [{node_id: self.extract(node_id) for node_id in node_ids}];
    an exception aborts the comprehension. *)
Fixpoint extract_batch_aux (env : Env) (frames : nat) (cache : Cache)
  (node_ids : list nat) (acc : list (nat * NodeTextResult))
  : Outcome (list (nat * NodeTextResult)) * Cache :=
  match node_ids with
  | [] => (Ok acc, cache)
  | id :: ids =>
      match extract env frames cache id with
      | (Raise e, cache') => (Raise e, cache')
      | (Ok r, cache') =>
          let acc' := if existsb (fun kv => Nat.eqb (fst kv) id) acc
                      then map (fun kv => if Nat.eqb (fst kv) id then (id, r) else kv) acc
                      else (acc ++ [(id, r)])%list in
          extract_batch_aux env frames cache' ids acc'
      end
  end.

Definition extract_batch (env : Env) (frames : nat) (cache : Cache)
  (node_ids : list nat) : Outcome (list (nat * NodeTextResult)) * Cache :=
  extract_batch_aux env frames cache node_ids [].

(** Vocabulary for stating properties of the extractor. *)

(** [contained_in g n m d]: following the defining relationship of [n]
    ([DEFINES_METHOD] for a method, [DEFINES] for a function or class)
    [d] times reaches the file-category node [m]. *)
Inductive contained_in (g : Graph) : GraphNode -> GraphNode -> nat -> Prop :=
| contained_file (n : GraphNode) :
    meets (glabels n) LABELS_WITH_PATH = true -> contained_in g n n 0
| contained_method (n c m : GraphNode) (d : nat) :
    meets (glabels n) LABELS_WITH_PATH = false ->
    meets (glabels n) ["Method"] = true ->
    find_parent_via_relationship g (gnode_id n) "DEFINES_METHOD" = Some c ->
    contained_in g c m d -> contained_in g n m (S d)
| contained_defined (n p m : GraphNode) (d : nat) :
    meets (glabels n) LABELS_WITH_PATH = false ->
    meets (glabels n) ["Method"] = false ->
    meets (glabels n) ["Function"; "Class"] = true ->
    find_parent_via_relationship g (gnode_id n) "DEFINES" = Some p ->
    contained_in g p m d -> contained_in g n m (S d).

(** The cache agrees with the file system: a cached [None] is a missing
    file, a cached text is the file's content. *)
Definition cache_ok (env : Env) (cache : Cache) : Prop :=
  forall p v, lookup cache p = Some v ->
    match lookup (fs env) p with
    | None => v = None
    | Some (Text c) => v = Some c
    | Some (Unreadable _) => False
    end.

End Extractor.

(** ** [CallProcessor] *)
Module CallProc.

(** Exceptions that can reach [process_calls_in_file]; all but the last
    two derive from [Exception]. *)
Inductive Exc :=
| ValueError
| KeyError
| AttributeError
| TypeError
| UnicodeDecodeError
| RecursionError
| KeyboardInterrupt
| SystemExit.

Definition is_exception (e : Exc) : bool :=
  match e with KeyboardInterrupt | SystemExit => false | _ => true end.

(** Result of a call: it returns (after logging the exception it caught,
    if any) or raises. *)
Inductive Outcome :=
| Returned (logged : option Exc)
| Raised (e : Exc).

(** A path as the list of its parts. *)
Definition Path := list string.

(** [file_path.relative_to(repo_path)]; [None] is its [ValueError]. *)
Fixpoint relative_to (p base : Path) : option Path :=
  match base, p with
  | [], _ => Some p
  | b :: base', x :: p' => if String.eqb b x then relative_to p' base' else None
  | _ :: _, [] => None
  end.

(** [name.rfind(".")], as [Some] index, [None] for [-1]. *)
Fixpoint rfind_dot (s : string) (i : nat) (found : option nat) : option nat :=
  match s with
  | EmptyString => found
  | String c rest => rfind_dot rest (S i) (if Ascii.eqb c "." then Some i else found)
  end.

(** The name without its suffix, as [with_suffix("")] leaves it: the
    suffix starts at the last dot when [0 < i < len(name) - 1]. *)
Definition strip_suffix (name : string) : string :=
  match rfind_dot name 0 None with
  | Some i =>
      if (0 <? i)%nat && (i <? String.length name - 1)%nat then substring 0 i name
      else name
  | None => name
  end.

(** [relative_path.with_suffix("").parts]; [None] is the [ValueError] of a
    path with an empty name. *)
Definition parts_without_suffix (rel : Path) : option Path :=
  match rev rel with
  | [] => None
  | last :: rest => Some (rev rest ++ [strip_suffix last])%list
  end.

Definition INIT_PY := "__init__.py".
Definition MOD_RS := "mod.rs".

(** The module qualified name computed at the top of the [try] block. *)
Definition module_qn_of (project_name : string) (rel : Path) : option string :=
  match rev rel with
  | name :: parent_rev =>
      if String.eqb name INIT_PY || String.eqb name MOD_RS then
        Some (String.concat "." (project_name :: rev parent_rev))
      else
        match parts_without_suffix rel with
        | Some parts => Some (String.concat "." (project_name :: parts))
        | None => None
        end
  | [] => None
  end.

(** [process_calls_in_file]. [relative_to] runs before the [try]; the rest
    of the [try] block (building contexts, querying calls, attributing and
    resolving them through the collaborators) is [rest module_qn];
    [except Exception] logs and returns. *)
Definition process_calls_in_file (repo_path file_path : Path)
  (project_name : string) (rest : string -> Outcome) : Outcome :=
  match relative_to file_path repo_path with
  | None => Raised ValueError
  | Some relative_path =>
      let attempt :=
        match module_qn_of project_name relative_path with
        | None => Raised ValueError
        | Some module_qn => rest module_qn
        end in
      match attempt with
      | Raised e => if is_exception e then Returned (Some e) else Raised e
      | Returned l => Returned l
      end
  end.

(** A tree-sitter node: its byte range and its parent. *)
Scheme All for option.
Inductive TNode := mkTNode (start_byte end_byte : Z) (parent : option TNode).

Definition parent (n : TNode) : option TNode :=
  match n with mkTNode _ _ p => p end.

(** [_node_key]. *)
Definition node_key (n : TNode) : Z * Z :=
  match n with mkTNode s e _ => (s, e) end.

Definition key_eqb (a b : Z * Z) : bool :=
  Z.eqb (fst a) (fst b) && Z.eqb (snd a) (snd b).

Record CallContext := mkCallContext {
  caller_node : TNode;
  caller_qn : string;
  caller_type : string;
  class_context : option string;
  call_nodes : list TNode
}.

(** The contexts dict, keyed by byte range, in insertion order. *)
Definition Contexts := list ((Z * Z) * CallContext).

Fixpoint lookupk (d : Contexts) (k : Z * Z) : option CallContext :=
  match d with
  | [] => None
  | (k', v) :: d' => if key_eqb k k' then Some v else lookupk d' k
  end.

Fixpoint setk (d : Contexts) (k : Z * Z) (v : CallContext) : Contexts :=
  match d with
  | [] => [(k, v)]
  | (k', v') :: d' => if key_eqb k k' then (k', v) :: d' else (k', v') :: setk d' k v
  end.

(** A function or method context found by the queries: its node, qualified
    name, kind and class context. *)
Definition Entry := (TNode * string * string * option string)%type.

(** [_build_caller_contexts]: the module context first, then the function
    and method contexts the queries yield, each with an empty call list. *)
Definition build_caller_contexts (root_node : TNode) (module_qn : string)
  (entries : list Entry) : Contexts :=
  fold_left
    (fun d (e : Entry) =>
       let '(n, qn, ty, cls) := e in setk d (node_key n) (mkCallContext n qn ty cls []))
    entries
    (setk [] (node_key root_node) (mkCallContext root_node module_qn "Module" None [])).

(** The [while current is not None] loop of [_find_containing_context],
    from a node [current] on, returning the matched key with its context. *)
Fixpoint find_from (current : TNode) (contexts : Contexts)
  : option ((Z * Z) * CallContext) :=
  match current with
  | mkTNode s e p =>
      match lookupk contexts (s, e) with
      | Some c => Some ((s, e), c)
      | None => match p with None => None | Some p' => find_from p' contexts end
      end
  end.

(** [_find_containing_context]. *)
Definition find_containing_context (call_node : TNode) (contexts : Contexts)
  : option ((Z * Z) * CallContext) :=
  match parent call_node with
  | None => None
  | Some current => find_from current contexts
  end.

(** The grouping loop of [_attribute_and_process_calls]: the call is
    appended to the call list of the context object stored under the
    matched key. *)
Definition attribute_calls (all_calls : list TNode) (contexts : Contexts)
  : Contexts :=
  fold_left
    (fun d call_node =>
       match find_containing_context call_node d with
       | Some (k, c) =>
           setk d k (mkCallContext (caller_node c) (caller_qn c) (caller_type c)
                       (class_context c) (call_nodes c ++ [call_node])%list)
       | None => d
       end)
    all_calls contexts.

(** A node followed by its ancestors, nearest first. *)
Fixpoint chain (n : TNode) : list TNode :=
  match n with
  | mkTNode s e p => mkTNode s e p :: match p with None => [] | Some p' => chain p' end
  end.

(** The ancestor chain of a node, parent first. *)
Definition ancestors (n : TNode) : list TNode :=
  match parent n with None => [] | Some p => chain p end.

(** The walk of [find_from] over a list of nodes. *)
Fixpoint first_match (l : list TNode) (contexts : Contexts)
  : option ((Z * Z) * CallContext) :=
  match l with
  | [] => None
  | a :: l' =>
      match lookupk contexts (node_key a) with
      | Some c => Some (node_key a, c)
      | None => first_match l' contexts
      end
  end.

Definition all_call_nodes (contexts : Contexts) : list TNode :=
  flat_map (fun kv => call_nodes (snd kv)) contexts.

End CallProc.

(** ** [FileEnumerator] *)
Module FileEnum.
Import Py.

(** A path as the list of its parts; [Path] objects compare by their parts. *)
Definition Path := list string.

Fixpoint path_ltb (a b : Path) : bool :=
  match a, b with
  | [], [] => false
  | [], _ :: _ => true
  | _ :: _, [] => false
  | x :: a', y :: b' => if String.eqb x y then path_ltb a' b' else String.ltb x y
  end.

Definition path_lt (a b : Path) : option bool := Some (path_ltb a b).

(** [sorted(...)] on paths (paths always compare, so it never fails). *)
Definition sorted (l : list Path) : list Path :=
  match sort_by path_lt l with Some r => r | None => l end.

(** [set.add]. *)
Definition set_add (p : Path) (s : list Path) : list Path :=
  if in_dec (list_eq_dec string_dec) p s then s else (s ++ [p])%list.

(** What [is_dir()] / [is_file()] report for a path. *)
Inductive Kind := IsDir | IsFile | IsOther.

(** The file system as [enumerate] sees it: the paths [rglob("*")] yields
    and the kind of each. *)
Record FileSystem := mkFileSystem {
  rglob : list Path;
  kind_of : Path -> Kind
}.

Record FileEnumerator := mkFileEnumerator {
  repo_path : Path;
  directories_ : list Path;
  files_ : list Path;
  enumerated : bool
}.

(** [FileEnumerator(repo_path)]. *)
Definition new (repo : Path) : FileEnumerator := mkFileEnumerator repo [] [] false.

(** [enumerate(exclude_paths, include_paths)]; [should_skip path] is
    [should_skip_path(path, self.repo_path, exclude_paths=...,
    include_paths=...)] for the pattern sets of the call. *)
Definition enumerate (fs : FileSystem) (should_skip : Path -> bool)
  (fe : FileEnumerator) : FileEnumerator :=
  if enumerated fe then fe
  else
    let '(directories, files) :=
      fold_left
        (fun (acc : list Path * list Path) path =>
           let '(directories, files) := acc in
           if should_skip path then (directories, files)
           else match kind_of fs path with
                | IsDir => (set_add path directories, files)
                | IsFile => (directories, files ++ [path])%list
                | IsOther => (directories, files)
                end)
        (sorted (rglob fs)) ([repo_path fe], []) in
    mkFileEnumerator (repo_path fe) (sorted directories) files true.

Inductive Error := RuntimeError.

(** The [directories] property. *)
Definition directories (fe : FileEnumerator) : list Path + Error :=
  if enumerated fe then inl (directories_ fe) else inr RuntimeError.

(** The [files] property. *)
Definition files (fe : FileEnumerator) : list Path + Error :=
  if enumerated fe then inl (files_ fe) else inr RuntimeError.

Definition is_file (k : Kind) : bool :=
  match k with IsFile => true | _ => false end.

(** A call to [enumerate]: the file system at that moment and the skip
    predicate of its pattern sets. *)
Definition Call := (FileSystem * (Path -> bool))%type.

Definition run_calls (fe : FileEnumerator) (calls : list Call) : FileEnumerator :=
  fold_left (fun fe '(fs, skip) => enumerate fs skip fe) calls fe.

End FileEnum.

(** Vocabulary for properties of the ingestor's export. *)
Module IngestorVocab.
Import Py Ingestor.

(** The value the node sort compares after the label, [qn or name or path],
    for a node stored with the non-null part of [p]. *)
Definition stored_sort_value (p : PropertyDict) : PropertyValue :=
  let q := non_null p in
  py_or (get q "qualified_name" (PStr ""))
    (py_or (get q "name" (PStr "")) (get q "path" (PStr ""))).

Definition is_str (v : PropertyValue) : bool :=
  match v with PStr _ => true | _ => false end.

Definition no_colon (s : string) : bool :=
  forallb (fun c => negb (Ascii.eqb c ":")) (list_ascii_of_string s).

End IngestorVocab.

(** A file with a module-level call and a call inside [f]. *)
Module CallSamples.
Import CallProc.

Definition root : TNode := mkTNode 0 100 None.
Definition func_f : TNode := mkTNode 10 50 (Some root).
Definition body_f : TNode := mkTNode 20 50 (Some func_f).
Definition call_in_f : TNode := mkTNode 25 30 (Some body_f).
Definition call_at_top : TNode := mkTNode 60 70 (Some root).

Definition entries : list Entry := [(func_f, "proj.m.f", "Function", None)].

Definition ok_rest (module_qn : string) : Outcome := Returned None.
Definition failing_rest (module_qn : string) : Outcome := Raised KeyError.
Definition interrupted_rest (module_qn : string) : Outcome := Raised KeyboardInterrupt.

End CallSamples.

(** Sample ingestor runs used by the witnesses and counterexamples below. *)
Module IngestorSamples.
Import Py Ingestor.

Definition fn (qn : string) : Op :=
  EnsureNode "Function" [("qualified_name", PStr qn); ("docstring", PNone)].

Definition calls (a b : string) : Op :=
  EnsureRel ("Function", "qualified_name", PStr a) "CALLS"
    ("Function", "qualified_name", PStr b) None.

(** Two workers register [m.a] and [m.b] and a call edge between them. *)
Definition schedule1 : list Op := [fn "m.a"; calls "m.a" "m.b"; fn "m.b"].
Definition schedule2 : list Op := [calls "m.a" "m.b"; fn "m.a"; fn "m.b"].
(** The same two registrations in the other order. *)
Definition schedule3 : list Op := [fn "m.b"; calls "m.a" "m.b"; fn "m.a"].
(** A run with a dangling edge to [m.missing] and a duplicate edge. *)
Definition schedule4 : list Op :=
  [fn "m.b"; calls "m.a" "m.missing"; fn "m.a"; calls "m.a" "m.b";
   calls "m.a" "m.b"; EnsureNode "Folder" [("path", PStr "pkg")]].

(** Two functions whose [qualified_name] values are a [str] and an [int],
    and a call edge to an unregistered function. *)
Definition mixed_schedule : list Op :=
  [fn "m.f"; EnsureNode "Function" [("qualified_name", PInt 7)];
   calls "m.f" "m.missing"].

End IngestorSamples.

(** The nested-function fixture of [tests/test_node_text_extractor.py]. *)
Module ExtractorSamples.
Import Py Extractor.

Definition nested_py : string :=
"def outer_function():
    x = 1

    def inner_function():
        y = 2
        return y

    def deeply_nested():
        def level3():
            z = 3
            return z
        return level3()

    return inner_function() + deeply_nested()


class OuterClass:
    def method(self):
        pass


def regular_function():
    return 42
".

Definition code_node (id : nat) (label qn : string) (a b : Z) : GraphNode :=
  mkGraphNode id [label]
    [("qualified_name", PStr qn); ("start_line", PInt a); ("end_line", PInt b)].

Definition defines (a b : nat) : GraphRel := mkGraphRel a b "DEFINES".

(** Module defines [outer_function], which defines [inner_function]
    (lines 4-6) and [deeply_nested] (lines 8-12), which defines [level3]
    (lines 9-11). *)
Definition nested_graph : Graph :=
  mkGraph
    [mkGraphNode 1 ["Module"]
       [("name", PStr "module"); ("qualified_name", PStr "module");
        ("path", PStr "nested.py")];
     code_node 2 "Function" "module.outer_function" 1 15;
     code_node 3 "Function" "module.outer_function.inner_function" 4 6;
     code_node 4 "Function" "module.outer_function.deeply_nested" 8 12;
     code_node 5 "Function" "module.outer_function.deeply_nested.level3" 9 11]
    [defines 1 2; defines 2 3; defines 2 4; defines 4 5].

Definition nested_env : Env :=
  mkEnv nested_graph [("/repo/nested.py", Text nested_py)] "/repo".

(** Lines 9-11 of [nested.py]. *)
Definition level3_source : string :=
"        def level3():
            z = 3
            return z".

(** The fixture with an extra function [helper] that has no line range. *)
Definition lineless_env : Env :=
  mkEnv (mkGraph (gnodes nested_graph ++
                  [mkGraphNode 6 ["Function"] [("qualified_name", PStr "module.helper");
                                               ("start_line", PStr "7")]])%list
                 (grels nested_graph ++ [defines 1 6])%list)
        (fs nested_env) "/repo".

(** A module whose file is not valid UTF-8, and two functions that define
    each other. *)
Definition broken_env : Env :=
  mkEnv (mkGraph
           [mkGraphNode 1 ["Module"] [("qualified_name", PStr "legacy");
                                      ("path", PStr "legacy.py")];
            mkGraphNode 2 ["Function"] [("qualified_name", PStr "f")];
            mkGraphNode 3 ["Function"] [("qualified_name", PStr "g")]]
           [defines 2 3; defines 3 2])
        [("/repo/legacy.py", Unreadable UnicodeDecodeError)] "/repo".

(** The expected result for [level3]. *)
Definition level3_result : NodeTextResult :=
  mkResult 5 (Some "module.outer_function.deeply_nested.level3")
    (Some "/repo/nested.py") (Some 9%Z) (Some 11%Z)
    (Some level3_source) (Some nested_py) None.

End ExtractorSamples.

(** [_build_nested_qualified_name] of the call processor. *)
Module CallNames.

(** A tree-sitter node as this function sees it: its type, the text of its
    [name] field when that child exists and has text, and its parent. *)
Inductive SNode := mkSNode (type : string) (name : option string) (parent : option SNode).

Definition stype (n : SNode) : string := match n with mkSNode t _ _ => t end.
Definition sname (n : SNode) : option string := match n with mkSNode _ nm _ => nm end.
Definition sparent (n : SNode) : option SNode := match n with mkSNode _ _ p => p end.

(** The node type sets of a [LanguageSpec]. *)
Record LanguageSpec := mkLanguageSpec {
  module_node_types : list string;
  function_node_types : list string;
  class_node_types : list string
}.

Definition mem (x : string) (l : list string) : bool := existsb (String.eqb x) l.

(** The [while] loop, from [current] on: [None] is the early
    [return None] at a class node; otherwise the collected [path_parts]. *)
Fixpoint collect_parts (cfg : LanguageSpec) (current : SNode) (path_parts : list string)
  : option (list string) :=
  match current with
  | mkSNode ty nm p =>
      if mem ty (module_node_types cfg) then Some path_parts
      else
        let next :=
          if mem ty (function_node_types cfg) then
            Some (match nm with Some text => path_parts ++ [text] | None => path_parts end)%list
          else if mem ty (class_node_types cfg) then None
          else Some path_parts in
        match next with
        | None => None
        | Some parts => match p with None => Some parts | Some p' => collect_parts cfg p' parts end
        end
  end.

Definition build_nested_qualified_name (func_node : SNode) (module_qn func_name : string)
  (cfg : LanguageSpec) : option string :=
  match sparent func_node with
  | None => None
  | Some current =>
      match collect_parts cfg current [] with
      | None => None
      | Some parts =>
          match rev parts with
          | [] => Some (module_qn ++ "." ++ func_name)
          | _ :: _ => Some (module_qn ++ "." ++ String.concat "." (rev parts) ++ "." ++ func_name)
          end
      end
  end.

(** The ancestors of a node, parent first. *)
Fixpoint schain (n : SNode) : list SNode :=
  n :: match sparent n with None => [] | Some p => schain p end.

Definition sancestors (n : SNode) : list SNode :=
  match sparent n with None => [] | Some p => schain p end.

End CallNames.

(** The module-level helpers of [node_text_extractor.py]. *)
Module ExtractorApi.
Import Py Extractor.

Definition result_of (o : Outcome NodeTextResult * Cache) : Outcome NodeTextResult :=
  fst o.

(** [extract_node_text]: a fresh extractor, hence an empty cache. *)
Definition extract_node_text (env : Env) (frames : nat) (node_id : nat)
  : Outcome NodeTextResult :=
  fst (extract env frames [] node_id).

Definition extract_nodes_text (env : Env) (frames : nat) (node_ids : list nat)
  : Outcome (list (nat * NodeTextResult)) :=
  fst (extract_batch env frames [] node_ids).

(** Truthiness of [result.error]. *)
Definition error_set (r : NodeTextResult) : bool :=
  match error r with Some (String _ _) => true | _ => false end.

(** [NodeChunk]: its [file_path] and [code_chunk]. *)
Definition NodeChunk := (string * string)%type.

Definition chunk_of (r : NodeTextResult) : option NodeChunk :=
  if error_set r then None
  else match file_path r, code_chunk r with
       | Some fp, Some c => Some (fp, c)
       | _, _ => None
       end.

(** [get_node_chunk]. *)
Definition get_node_chunk (env : Env) (frames : nat) (node_id : nat)
  : Outcome (option NodeChunk) :=
  match extract_node_text env frames node_id with
  | Raise e => Raise e
  | Ok r => Ok (chunk_of r)
  end.

(** [sorted(results.items())]: the keys are distinct, so the tuples are
    ordered by their keys. *)
Definition item_lt (a b : nat * NodeTextResult) : option bool :=
  Some (Nat.ltb (fst a) (fst b)).

(** [get_node_chunks]. *)
Definition get_node_chunks (env : Env) (frames : nat) (node_ids : list nat)
  : Outcome (list (nat * option NodeChunk)) :=
  match extract_nodes_text env frames node_ids with
  | Raise e => Raise e
  | Ok results =>
      match sort_by item_lt results with
      | Some items => Ok (map (fun kv => (fst kv, chunk_of (snd kv))) items)
      | None => Ok []
      end
  end.

(** [str.isspace()] on an ASCII character (the text is ASCII, as for
    [splitlines]). *)
Definition is_space (c : ascii) : bool :=
  match nat_of_ascii c with
  | 9 | 10 | 11 | 12 | 13 | 28 | 29 | 30 | 31 | 32 => true
  | _ => false
  end.

Fixpoint drop_spaces (l : list ascii) : list ascii :=
  match l with
  | [] => []
  | c :: l' => if is_space c then drop_spaces l' else l
  end.

(** [str.strip()] on ASCII text. *)
Definition strip (s : string) : string :=
  string_of_list_ascii
    (rev (drop_spaces (rev (drop_spaces (list_ascii_of_string s))))).

Definition digit_value (c : ascii) : option Z :=
  let n := nat_of_ascii c in
  if (48 <=? n)%nat && (n <=? 57)%nat then Some (Z.of_nat n - 48)%Z else None.

(** The digits of [int(s)] in base 10, after the first digit: single
    underscores may separate digits. *)
Fixpoint parse_digits (s : string) (acc : Z) (after_underscore : bool) : option Z :=
  match s with
  | EmptyString => if after_underscore then None else Some acc
  | String c rest =>
      match digit_value c with
      | Some d => parse_digits rest (10 * acc + d)%Z false
      | None =>
          if Ascii.eqb c "_" && negb after_underscore then parse_digits rest acc true
          else None
      end
  end.

Definition parse_unsigned (s : string) : option Z :=
  match s with
  | String c rest =>
      match digit_value c with
      | Some d => parse_digits rest d false
      | None => None
      end
  | EmptyString => None
  end.

Definition parse_signed (t : string) : option Z :=
  match t with
  | String "+" rest => parse_unsigned rest
  | String "-" rest => option_map Z.opp (parse_unsigned rest)
  | t => parse_unsigned t
  end.

(** The digits of a string, underscores not counted. *)
Fixpoint digit_count (s : string) : nat :=
  match s with
  | EmptyString => 0
  | String c rest =>
      match digit_value c with Some _ => S (digit_count rest) | None => digit_count rest end
  end.

(** 7-bit ASCII text. On it, [splitlines], [strip] and [py_int] agree with
    Python, which also accepts other Unicode spaces, line breaks and decimal
    digits. *)
Definition ascii7 (s : string) : bool :=
  forallb (fun c => (nat_of_ascii c <? 128)%nat) (list_ascii_of_string s).

(** The default [sys.get_int_max_str_digits()]. *)
Definition INT_MAX_STR_DIGITS : nat := 4300.

(** [int(s)]; [None] is its [ValueError], also raised for a number of more
    than [INT_MAX_STR_DIGITS] digits. *)
Definition py_int (s : string) : option Z :=
  let t := strip s in
  if (digit_count t <=? INT_MAX_STR_DIGITS)%nat then parse_signed t else None.

Inductive ReadError :=
| FileNotFoundError
| ReadFailed (e : PyExc)
| ValueError.

(** The loop over the lines. *)
Fixpoint parse_node_ids (lines : list string) : list Z + ReadError :=
  match lines with
  | [] => inl []
  | line :: rest =>
      let stripped := strip line in
      match stripped with
      | EmptyString => parse_node_ids rest
      | String "#" _ => parse_node_ids rest
      | _ =>
          match py_int stripped with
          | None => inr ValueError
          | Some z =>
              match parse_node_ids rest with
              | inl ids => inl (z :: ids)
              | inr e => inr e
              end
          end
      end
  end.

(** [read_node_ids_from_file]. *)
Definition read_node_ids_from_file (fs : FileSystem) (file_path : string)
  : list Z + ReadError :=
  match lookup fs file_path with
  | None => inr FileNotFoundError
  | Some (Unreadable e) => inr (ReadFailed e)
  | Some (Text content) => parse_node_ids (splitlines content)
  end.

End ExtractorApi.

(** * Proofs *)

(** ** Dicts and the stable sort *)
Module PyFacts.
Import Py.
Local Open Scope list_scope.

Lemma lookup_app {V} (d1 d2 : list (string * V)) (k : string) :
  lookup (d1 ++ d2) k =
  match lookup d1 k with Some v => Some v | None => lookup d2 k end.
Proof.
  induction d1 as [|[k' v'] d1 IH]; simpl; [reflexivity|].
  destruct (String.eqb k k'); [reflexivity | exact IH].
Qed.

Lemma dict_set_absent {V} (d : list (string * V)) (k : string) (v : V) :
  lookup d k = None -> dict_set d k v = d ++ [(k, v)].
Proof.
  induction d as [|[k' v'] d IH]; simpl; [reflexivity|].
  destruct (String.eqb k k'); [discriminate|].
  intro H; rewrite (IH H); reflexivity.
Qed.

Lemma lookup_dict_set_eq {V} (d : list (string * V)) (k : string) (v : V) :
  lookup (dict_set d k v) k = Some v.
Proof.
  induction d as [|[k' v'] d IH]; simpl.
  - rewrite String.eqb_refl. reflexivity.
  - destruct (String.eqb k k') eqn:E; simpl.
    + rewrite String.eqb_refl. reflexivity.
    + rewrite E. exact IH.
Qed.

Lemma lookup_In {V} (d : list (string * V)) (k : string) (v : V) :
  lookup d k = Some v -> In (k, v) d.
Proof.
  induction d as [|[k' v'] d IH]; simpl; [discriminate|].
  destruct (String.eqb k k') eqn:E.
  - apply String.eqb_eq in E; subst. intros [= ->]. left; reflexivity.
  - intro H; right; exact (IH H).
Qed.

Lemma lookup_None_notin {V} (d : list (string * V)) (k : string) :
  lookup d k = None <-> ~ In k (map fst d).
Proof.
  induction d as [|[k' v'] d IH]; simpl; [tauto|].
  destruct (String.eqb k k') eqn:E.
  - apply String.eqb_eq in E; subst. split; [discriminate | tauto].
  - apply String.eqb_neq in E. rewrite IH. split; [|tauto].
    intros H [H'|H']; [congruence | tauto].
Qed.

Section SortFacts.
Context {A : Type} (lt : A -> A -> option bool).

Lemma insert_by_perm (x : A) (l l' : list A) :
  insert_by lt x l = Some l' -> Permutation l' (x :: l).
Proof.
  revert l'; induction l as [|y ys IH]; simpl; intros l' H.
  - injection H as <-. reflexivity.
  - destruct (lt x y) as [[|]|]; [injection H as <-; reflexivity| |discriminate].
    destruct (insert_by lt x ys) as [ys'|] eqn:E; [|discriminate].
    injection H as <-.
    rewrite (IH ys' eq_refl). apply perm_swap.
Qed.

Lemma sort_aux_perm (acc l r : list A) :
  sort_aux lt acc l = Some r -> Permutation r (acc ++ l).
Proof.
  revert acc; induction l as [|x xs IH]; simpl; intros acc H.
  - injection H as <-. rewrite app_nil_r. reflexivity.
  - destruct (insert_by lt x acc) as [acc'|] eqn:E; [|discriminate].
    rewrite (IH _ H), (insert_by_perm _ _ _ E).
    simpl. apply Permutation_middle.
Qed.

Lemma sort_by_perm (l r : list A) :
  sort_by lt l = Some r -> Permutation r l.
Proof. intro H. exact (sort_aux_perm [] l r H). Qed.

(** A comparison that never raises never makes the sort fail. *)
Lemma sort_aux_total (acc l : list A) :
  (forall a b, lt a b <> None) -> sort_aux lt acc l <> None.
Proof.
  intro Ht. revert acc; induction l as [|x xs IH]; simpl; intro acc;
    [discriminate|].
  assert (Hi : forall ys, insert_by lt x ys <> None).
  { induction ys as [|y ys IHy]; simpl; [discriminate|].
    destruct (lt x y) as [[|]|] eqn:E; [discriminate| |exfalso; exact (Ht _ _ E)].
    destruct (insert_by lt x ys); [discriminate|contradiction]. }
  destruct (insert_by lt x acc) eqn:E; [apply IH|exfalso; exact (Hi _ E)].
Qed.

Hypothesis lt_asym : forall a b, lt a b = Some true -> lt b a = Some false.

Lemma insert_by_shape (x : A) (l l' : list A) :
  insert_by lt x l = Some l' ->
  l' = x :: l \/ exists y ys ys', l = y :: ys /\ l' = y :: ys'.
Proof.
  destruct l as [|y ys]; simpl; intro H.
  - injection H as <-. left; reflexivity.
  - destruct (lt x y) as [[|]|]; [injection H as <-; left; reflexivity| |discriminate].
    destruct (insert_by lt x ys) as [ys'|]; [|discriminate].
    injection H as <-. right; eauto.
Qed.

Lemma insert_by_sorted (x : A) (l l' : list A) :
  Sorted (not_below lt) l -> insert_by lt x l = Some l' ->
  Sorted (not_below lt) l'.
Proof.
  revert l'; induction l as [|y ys IH]; simpl; intros l' Hs H.
  - injection H as <-. repeat constructor.
  - destruct (lt x y) as [[|]|] eqn:Exy.
    + injection H as <-. constructor; [exact Hs|].
      constructor. unfold not_below. exact (lt_asym _ _ Exy).
    + destruct (insert_by lt x ys) as [ys'|] eqn:E; [|discriminate].
      injection H as <-.
      apply Sorted_inv in Hs as [Hs Hd].
      constructor; [exact (IH _ Hs eq_refl)|].
      destruct (insert_by_shape _ _ _ E) as [->|(z & zs & zs' & -> & ->)].
      * constructor. exact Exy.
      * constructor. apply HdRel_inv in Hd. exact Hd.
    + discriminate.
Qed.

Lemma sort_aux_sorted (acc l r : list A) :
  Sorted (not_below lt) acc -> sort_aux lt acc l = Some r ->
  Sorted (not_below lt) r.
Proof.
  revert acc; induction l as [|x xs IH]; simpl; intros acc Hs H.
  - injection H as <-. exact Hs.
  - destruct (insert_by lt x acc) as [acc'|] eqn:E; [|discriminate].
    exact (IH _ (insert_by_sorted _ _ _ Hs E) H).
Qed.

Lemma sort_by_sorted (l r : list A) :
  sort_by lt l = Some r -> Sorted (not_below lt) r.
Proof. apply sort_aux_sorted. constructor. Qed.

End SortFacts.

Lemma string_ltb_asym (a b : string) :
  String.ltb a b = true -> String.ltb b a = false.
Proof.
  unfold String.ltb. rewrite (String.compare_antisym b a).
  destruct (String.compare a b); simpl; congruence.
Qed.

End PyFacts.

(** ** [JsonFileIngestor] *)
Module IngestorFacts.
Import Py PyFacts Ingestor.
Local Open Scope list_scope.

Lemma get_node_id_key_nonempty (l : string) (p : PropertyDict) :
  String.eqb (get_node_id_key l p) "" = false.
Proof.
  unfold get_node_id_key.
  repeat match goal with |- context [if ?b then _ else _] => destruct b end;
    destruct l; reflexivity.
Qed.

Lemma run_app (ops1 ops2 : list Op) :
  run (ops1 ++ ops2) = fold_left step ops2 (run ops1).
Proof. unfold run. apply fold_left_app. Qed.

Lemma first_node_op_app (ops : list Op) (o : Op) (k : string) :
  first_node_op (ops ++ [o]) k =
  match first_node_op ops k with
  | Some x => Some x
  | None =>
      match o with
      | EnsureNode l p =>
          if String.eqb (get_node_id_key l p) k then Some (l, p) else None
      | EnsureRel _ _ _ _ => None
      end
  end.
Proof.
  induction ops as [|o' ops IH]; simpl.
  - destruct o; [destruct (String.eqb _ k)|]; reflexivity.
  - destruct o' as [l p|]; [destruct (String.eqb (get_node_id_key l p) k)|];
      first [reflexivity | exact IH].
Qed.

(** The table invariant kept by every call. *)
Definition table_inv (s : State) : Prop :=
  NoDup (map fst (nodes s)) /\
  map (fun kv => node_id (snd kv)) (nodes s) = seq 0 (node_counter s) /\
  node_id_lookup s = map (fun kv => (fst kv, node_id (snd kv))) (nodes s).

Lemma lookup_map_id (d : list (string * Node)) (k : string) :
  lookup (map (fun kv => (fst kv, node_id (snd kv))) d) k =
  option_map node_id (lookup d k).
Proof.
  induction d as [|[k' v'] d IH]; simpl; [reflexivity|].
  destruct (String.eqb k k'); [reflexivity|exact IH].
Qed.

Lemma step_inv (s : State) (o : Op) : table_inv s -> table_inv (step s o).
Proof.
  intros (Hnd & Hseq & Hlk).
  destruct o as [l p|f t g pr]; simpl.
  - unfold ensure_node_batch. rewrite get_node_id_key_nonempty.
    destruct (lookup (nodes s) (get_node_id_key l p)) eqn:E;
      [split; [|split]; assumption|].
    assert (E' : lookup (node_id_lookup s) (get_node_id_key l p) = None).
    { rewrite Hlk, lookup_map_id, E. reflexivity. }
    unfold table_inv; simpl.
    rewrite (dict_set_absent _ _ _ E), (dict_set_absent _ _ _ E').
    split; [|split].
    + rewrite map_app. apply NoDup_app; [exact Hnd | repeat constructor; simpl; tauto |].
      intros x Hx [<-|[]]. apply lookup_None_notin in E. contradiction.
    + rewrite map_app, Hseq. simpl.
      change (0 :: seq 1 (node_counter s)) with (seq 0 (S (node_counter s))).
      rewrite seq_S. reflexivity.
    + rewrite map_app, Hlk. reflexivity.
  - unfold ensure_relationship_batch.
    destruct f as [[fl fk] fv], g as [[tl tk] tv]. exact (conj Hnd (conj Hseq Hlk)).
Qed.

Lemma run_inv (ops : list Op) : table_inv (run ops).
Proof.
  induction ops as [|o ops IH] using rev_ind.
  - unfold table_inv; simpl. repeat constructor.
  - rewrite run_app. simpl. exact (step_inv _ _ IH).
Qed.

(** Registered nodes are never replaced. *)
Lemma step_keeps (s : State) (o : Op) (k : string) (n : Node) :
  lookup (nodes s) k = Some n -> lookup (nodes (step s o)) k = Some n.
Proof.
  intro H. destruct o as [l p|f t g pr]; simpl.
  - unfold ensure_node_batch. rewrite get_node_id_key_nonempty.
    destruct (lookup (nodes s) (get_node_id_key l p)) eqn:E; [exact H|].
    simpl. rewrite (dict_set_absent _ _ _ E), lookup_app, H. reflexivity.
  - destruct f as [[fl fk] fv], g as [[tl tk] tv]. exact H.
Qed.

Lemma run_first_registration (ops : list Op) :
  (forall k l p, first_node_op ops k = Some (l, p) ->
     exists id, lookup (nodes (run ops)) k = Some (mkNode id [l] (non_null p))) /\
  (forall k, first_node_op ops k = None -> lookup (nodes (run ops)) k = None).
Proof.
  induction ops as [|o ops [IH1 IH2]] using rev_ind.
  - split; [discriminate | reflexivity].
  - rewrite run_app. simpl. split.
    + intros k l p H. rewrite first_node_op_app in H.
      destruct (first_node_op ops k) as [[l' p']|] eqn:E.
      * injection H as <- <-. destruct (IH1 _ _ _ E) as [id Hid].
        exists id. exact (step_keeps _ _ _ _ Hid).
      * destruct o as [l0 p0|]; [|discriminate].
        destruct (String.eqb (get_node_id_key l0 p0) k) eqn:Ek; [|discriminate].
        injection H as <- <-. apply String.eqb_eq in Ek.
        simpl. unfold ensure_node_batch. rewrite get_node_id_key_nonempty, Ek, (IH2 _ E).
        simpl. exists (node_counter (run ops)). apply lookup_dict_set_eq.
    + intros k H. rewrite first_node_op_app in H.
      destruct (first_node_op ops k) as [x|] eqn:E; [discriminate|].
      destruct o as [l0 p0|f t g pr]; simpl.
      * destruct (String.eqb (get_node_id_key l0 p0) k) eqn:Ek; [discriminate|].
        unfold ensure_node_batch. rewrite get_node_id_key_nonempty.
        destruct (lookup (nodes (run ops)) (get_node_id_key l0 p0)) eqn:E0;
          [exact (IH2 _ E)|].
        simpl. rewrite (dict_set_absent _ _ _ E0), lookup_app, (IH2 _ E). simpl.
        rewrite String.eqb_sym, Ek. reflexivity.
      * destruct f as [[fl fk] fv], g as [[tl tk] tv]. exact (IH2 _ E).
Qed.

(** C2: a second [ensure_node_batch] with the same identity key changes
    nothing; each key has one node whose properties are the non-null
    properties of its first registration; ids run 0, 1, 2, ... in
    registration order, and the id index agrees with the node table. *)
Theorem ensure_node_dedup (ops : list Op) :
  let s := run ops in
  (forall s0 l p1 p2, get_node_id_key l p1 = get_node_id_key l p2 ->
     ensure_node_batch (ensure_node_batch s0 l p1) l p2 =
     ensure_node_batch s0 l p1) /\
  NoDup (map fst (nodes s)) /\
  map (fun kv => node_id (snd kv)) (nodes s) = seq 0 (node_counter s) /\
  (forall k, lookup (node_id_lookup s) k = option_map node_id (lookup (nodes s) k)) /\
  (forall k l p, first_node_op ops k = Some (l, p) ->
     exists id, lookup (nodes s) k = Some (mkNode id [l] (non_null p))) /\
  (forall k, first_node_op ops k = None -> lookup (nodes s) k = None).
Proof.
  intro s. destruct (run_inv ops) as (Hnd & Hseq & Hlk).
  destruct (run_first_registration ops) as [H1 H2].
  split; [|split; [exact Hnd|split; [exact Hseq|split; [|split; [exact H1|exact H2]]]]].
  - intros s0 l p1 p2 Hk.
    unfold ensure_node_batch at 1 2 3. rewrite <- Hk, get_node_id_key_nonempty.
    destruct (lookup (nodes s0) (get_node_id_key l p1)) eqn:E; [rewrite E; reflexivity|].
    simpl. rewrite lookup_dict_set_eq. reflexivity.
  - intro k. unfold s. rewrite Hlk. apply lookup_map_id.
Qed.

End IngestorFacts.

(** ** Export of the ingestor *)
Module FlushFacts.
Import Py PyFacts Ingestor IngestorFacts IngestorSamples.
Local Open Scope list_scope.

Definition node_part (s : State) := (nodes s, node_counter s, node_id_lookup s).

Section Projection.
Variable B : Type.
Variable pi : State -> B.
Variable P : Op -> bool.
Hypothesis pi_congr :
  forall s1 s2 o, pi s1 = pi s2 -> pi (step s1 o) = pi (step s2 o).
Hypothesis pi_other : forall s o, P o = false -> pi (step s o) = pi s.

Lemma fold_congr (ops : list Op) (s1 s2 : State) :
  pi s1 = pi s2 -> pi (fold_left step ops s1) = pi (fold_left step ops s2).
Proof.
  revert s1 s2; induction ops as [|o ops IH]; simpl; intros s1 s2 H;
    [exact H | apply IH, pi_congr, H].
Qed.

Lemma fold_filter (ops : list Op) (s : State) :
  pi (fold_left step ops s) = pi (fold_left step (filter P ops) s).
Proof.
  revert s; induction ops as [|o ops IH]; simpl; intro s; [reflexivity|].
  destruct (P o) eqn:E; simpl; rewrite IH; [reflexivity|].
  apply fold_congr, pi_other, E.
Qed.

End Projection.

Lemma node_part_congr (s1 s2 : State) (o : Op) :
  node_part s1 = node_part s2 -> node_part (step s1 o) = node_part (step s2 o).
Proof.
  destruct s1 as [n1 r1 c1 l1], s2 as [n2 r2 c2 l2]; unfold node_part; simpl.
  intros [= <- <- <-].
  destruct o as [l p|f t g pr]; simpl.
  - unfold ensure_node_batch; simpl.
    destruct (String.eqb _ ""); [reflexivity|].
    destruct (lookup n1 _); reflexivity.
  - destruct f as [[fl fk] fv], g as [[tl tk] tv]. reflexivity.
Qed.

Lemma node_part_rel (s : State) (o : Op) :
  is_node_op o = false -> node_part (step s o) = node_part s.
Proof.
  destruct o as [l p|f t g pr]; simpl; [discriminate|].
  destruct f as [[fl fk] fv], g as [[tl tk] tv]. reflexivity.
Qed.

Lemma rels_congr (s1 s2 : State) (o : Op) :
  relationships s1 = relationships s2 ->
  relationships (step s1 o) = relationships (step s2 o).
Proof.
  intro H. destruct o as [l p|f t g pr]; simpl.
  - unfold ensure_node_batch.
    destruct (String.eqb _ ""); [exact H|].
    destruct (lookup (nodes s1) _), (lookup (nodes s2) _); exact H.
  - destruct f as [[fl fk] fv], g as [[tl tk] tv]. simpl. rewrite H. reflexivity.
Qed.

Lemma rels_node (s : State) (o : Op) :
  negb (is_node_op o) = false -> relationships (step s o) = relationships s.
Proof.
  destruct o as [l p|f t g pr]; simpl; [|discriminate]. intros _.
  unfold ensure_node_batch.
  destruct (String.eqb _ ""); [reflexivity|].
  destruct (lookup (nodes s) _); reflexivity.
Qed.

Lemma flush_all_congr (s1 s2 : State) (now : string) :
  nodes s1 = nodes s2 -> node_id_lookup s1 = node_id_lookup s2 ->
  relationships s1 = relationships s2 -> flush_all s1 now = flush_all s2 now.
Proof.
  intros Hn Hl Hr. unfold flush_all, resolved_relationships.
  rewrite Hn, Hl, Hr. reflexivity.
Qed.

Lemma flush_all_time (s : State) (t1 t2 : string) :
  without_timestamp (flush_all s t1) = without_timestamp (flush_all s t2).
Proof.
  unfold flush_all.
  destruct (sort_by node_lt _); [|reflexivity].
  destruct (sort_by rel_lt _); reflexivity.
Qed.

(** C1 (as the code has it): two runs that make the same [ensure_node_batch]
    calls in the same order and the same [ensure_relationship_batch] calls
    in the same order, however the two kinds of calls interleave across
    workers, export the same nodes, relationships and totals; only
    [exported_at], the wall-clock time of the flush, may differ. *)
Theorem flush_deterministic (ops1 ops2 : list Op) (t1 t2 : string) :
  node_ops ops1 = node_ops ops2 -> rel_ops ops1 = rel_ops ops2 ->
  without_timestamp (flush_all (run ops1) t1) =
  without_timestamp (flush_all (run ops2) t2).
Proof.
  intros Hn Hr.
  assert (Np : node_part (run ops1) = node_part (run ops2)).
  { unfold run.
    rewrite (fold_filter _ node_part is_node_op node_part_congr node_part_rel ops1),
      (fold_filter _ node_part is_node_op node_part_congr node_part_rel ops2).
    fold (node_ops ops1) (node_ops ops2). rewrite Hn. reflexivity. }
  assert (Rp : relationships (run ops1) = relationships (run ops2)).
  { unfold run.
    rewrite (fold_filter _ relationships _ rels_congr rels_node ops1),
      (fold_filter _ relationships _ rels_congr rels_node ops2).
    fold (rel_ops ops1) (rel_ops ops2). rewrite Hr. reflexivity. }
  unfold node_part in Np. injection Np as Hn' _ Hl'.
  rewrite (flush_all_congr _ _ t1 Hn' Hl' Rp). apply flush_all_time.
Qed.

Lemma flush_deterministic_witness :
  node_ops schedule1 = node_ops schedule2 /\ rel_ops schedule1 = rel_ops schedule2 /\
  without_timestamp (flush_all (run schedule1) "2026-10-18T09:00:00+00:00") =
  without_timestamp (flush_all (run schedule2) "2026-10-18T09:05:00+00:00").
Proof.
  split; [reflexivity|split; [reflexivity|]].
  apply flush_deterministic; reflexivity.
Defined.

(** C1 fails as stated: the export carries the flush time, so two runs at
    different times differ in [metadata.exported_at]; and registering the
    same nodes in another order gives them other node ids. *)
Lemma flush_not_byte_identical :
  flush_all (run schedule1) "2026-10-18T09:00:00+00:00" <>
  flush_all (run schedule1) "2026-10-18T09:05:00+00:00" /\
  flush_all (run schedule1) "2026-10-18T09:00:00+00:00" <>
  flush_all (run schedule3) "2026-10-18T09:00:00+00:00".
Proof. split; vm_compute; discriminate. Qed.

Lemma rel_lt_total (a b : Rel) : rel_lt a b <> None.
Proof. unfold rel_lt. discriminate. Qed.

Lemma registered_lookup (ops : list Op) (k : string) :
  lookup (node_id_lookup (run ops)) k = None <-> first_node_op ops k = None.
Proof.
  destruct (run_inv ops) as (_ & _ & Hlk).
  destruct (run_first_registration ops) as [H1 H2].
  rewrite Hlk, lookup_map_id. split.
  - intro H. destruct (first_node_op ops k) as [[l p]|] eqn:E; [|reflexivity].
    destruct (H1 _ _ _ E) as [id Hid]. rewrite Hid in H. discriminate.
  - intro H. rewrite (H2 _ H). reflexivity.
Qed.

(** C3 fails as stated: flush does not always complete. Sorting the nodes
    compares [("Function", "m.f")] with [("Function", 7)], and [str < int]
    raises [TypeError] although the run is made of [ensure_node_batch] and
    [ensure_relationship_batch] calls only. *)
Lemma flush_raises_on_mixed_keys :
  flush_all (run mixed_schedule) "2026-10-18T09:00:00+00:00" = inr TypeError.
Proof. vm_compute. reflexivity. Qed.

(** C3: buffered relationships never make [flush_all] fail (it fails only
    when the node sort raises); the exported relationships are exactly the
    buffered ones whose two endpoint keys resolve, duplicates included
    (a permutation of them); and a buffered relationship fails to resolve
    exactly when one of its endpoint keys was never registered by an
    [ensure_node_batch] call of the run. *)
Theorem flush_drops_dangling (ops : list Op) (now : string) :
  let s := run ops in
  (flush_all s now = inr TypeError <->
   sort_by node_lt (map snd (nodes s)) = None) /\
  (forall g, flush_all s now = inl g ->
     Permutation (gd_relationships g) (resolved_relationships s)) /\
  (forall r, In r (relationships s) ->
     (resolve (node_id_lookup s) r = None <->
      first_node_op ops (from_key r) = None \/ first_node_op ops (to_key r) = None)).
Proof.
  cbv zeta. set (s := run ops).
  assert (Hrs : sort_by rel_lt (resolved_relationships s) <> None)
    by (apply sort_aux_total, rel_lt_total).
  split; [|split].
  - unfold flush_all.
    destruct (sort_by node_lt _); [|split; reflexivity].
    destruct (sort_by rel_lt _) eqn:E; [split; discriminate | contradiction].
  - intros g H. unfold flush_all in H.
    destruct (sort_by node_lt _); [|discriminate].
    destruct (sort_by rel_lt _) as [rels|] eqn:E; [|discriminate].
    injection H as <-. exact (sort_by_perm _ _ _ E).
  - intros r _. unfold resolve, s.
    rewrite <- !(registered_lookup ops).
    destruct (lookup (node_id_lookup (run ops)) (from_key r)),
      (lookup (node_id_lookup (run ops)) (to_key r)); cbn; split; intro H;
      first [discriminate | destruct H as [H|H]; discriminate | auto].
Qed.

Lemma node_lt_asym (a b : Node) :
  node_lt a b = Some true -> node_lt b a = Some false.
Proof.
  unfold node_lt, node_key_lt.
  destruct (node_sort_key a) as [la va], (node_sort_key b) as [lb vb]; simpl.
  rewrite (String.eqb_sym lb la).
  destruct (String.eqb la lb) eqn:El.
  - assert (Hsym : eqv vb va = eqv va vb)
      by (destruct va, vb; simpl; try reflexivity;
          first [apply String.eqb_sym | apply Z.eqb_sym]).
    rewrite Hsym. destruct (eqv va vb) eqn:Ee; [discriminate|].
    intro H.
    destruct va, vb; simpl in *; try discriminate; injection H as H;
      first [ rewrite (string_ltb_asym _ _ H); reflexivity
            | apply Z.ltb_lt in H; f_equal; apply Z.ltb_ge; lia
            | idtac ].
  - intro H; injection H as H. rewrite (string_ltb_asym _ _ H). reflexivity.
Qed.

Lemma rel_lt_asym (a b : Rel) :
  rel_lt a b = Some true -> rel_lt b a = Some false.
Proof.
  unfold rel_lt. intro H; injection H as H. f_equal.
  rewrite (Nat.eqb_sym (from_id b)), (String.eqb_sym (type b)).
  destruct (Nat.eqb (from_id a) (from_id b)) eqn:Ef.
  - destruct (String.eqb (type a) (type b)) eqn:Et.
    + apply Nat.ltb_lt in H. apply Nat.ltb_ge. lia.
    + exact (string_ltb_asym _ _ H).
  - apply Nat.ltb_lt in H. apply Nat.ltb_ge. lia.
Qed.

(** C8: whatever the registration order, an export lists its nodes in
    nondecreasing order of [(labels[0], qualified_name or name or path)]
    and its relationships in nondecreasing order of
    [(from_id, type, to_id)]: no element compares [<] its predecessor.
    The nodes exported are the registered ones. *)
Theorem flush_sorted (s : State) (now : string) (g : GraphData) :
  flush_all s now = inl g ->
  Sorted (not_below node_lt) (gd_nodes g) /\
  Sorted (not_below rel_lt) (gd_relationships g) /\
  Permutation (gd_nodes g) (map snd (nodes s)).
Proof.
  unfold flush_all. intro H.
  destruct (sort_by node_lt _) as [ns|] eqn:En; [|discriminate].
  destruct (sort_by rel_lt _) as [rels|] eqn:Er; [|discriminate].
  injection H as <-. simpl.
  split; [exact (sort_by_sorted _ node_lt_asym _ _ En)|].
  split; [exact (sort_by_sorted _ rel_lt_asym _ _ Er)|].
  exact (sort_by_perm _ _ _ En).
Qed.

Lemma flush_sorted_witness :
  let r := flush_all (run schedule4) "2026-10-18T09:00:00+00:00" in
  let g := match r with inl g => g | inr _ => mkGraphData [] [] (mkMetadata 0 0 "") end in
  r = inl g /\
  (Sorted (not_below node_lt) (gd_nodes g) /\
   Sorted (not_below rel_lt) (gd_relationships g) /\
   Permutation (gd_nodes g) (map snd (nodes (run schedule4)))).
Proof.
  intros r g. assert (H : r = inl g) by (vm_compute; reflexivity).
  split; [exact H | exact (flush_sorted _ _ _ H)].
Defined.

End FlushFacts.

(** ** [NodeTextExtractor] *)
Module ExtractorFacts.
Import Py PyFacts Extractor ExtractorSamples.
Local Open Scope list_scope.

Lemma find_module_contained (g : Graph) (n m : GraphNode) (d frames : nat) :
  contained_in g n m d -> d < frames ->
  find_module_for_node g frames n = Ok (Some m).
Proof.
  intro H. revert frames.
  induction H as [n Hp|n c m d Hp Hm Hc _ IH|n p m d Hp Hm Hf Hc _ IH];
    intros [|frames] Hd; try lia; simpl.
  - rewrite Hp. reflexivity.
  - rewrite Hp, Hm, Hc. apply IH. lia.
  - rewrite Hp, Hm, Hf, Hc. apply IH. lia.
Qed.

Lemma cache_ok_nil (env : Env) : cache_ok env [].
Proof. intros p v H. discriminate. Qed.

Lemma read_file_cache_ok (env : Env) (cache : Cache) (p : string) :
  cache_ok env cache -> cache_ok env (snd (read_file env cache p)).
Proof.
  intros Hc. unfold read_file.
  destruct (lookup cache p) as [v|] eqn:E; [exact Hc|].
  destruct (lookup (fs env) p) as [[c|e]|] eqn:F; simpl; [| exact Hc |];
    intros q v Hq; rewrite (dict_set_absent _ _ _ E), lookup_app in Hq;
    destruct (lookup cache q) eqn:Eq;
    solve [ injection Hq as <-; exact (Hc _ _ Eq)
          | simpl in Hq; destruct (String.eqb q p) eqn:Ep; [|discriminate];
            apply String.eqb_eq in Ep; subst q; injection Hq as <-;
            rewrite F; reflexivity ].
Qed.

Lemma read_file_text (env : Env) (cache : Cache) (p c : string) :
  cache_ok env cache -> lookup (fs env) p = Some (Text c) ->
  exists cache', read_file env cache p = (Ok (Some c), cache').
Proof.
  intros Hc F. unfold read_file.
  destruct (lookup cache p) as [v|] eqn:E.
  - pose proof (Hc _ _ E) as Hv. rewrite F in Hv. subst v. eauto.
  - rewrite F. eauto.
Qed.

Lemma extract_cache_ok (env : Env) (frames : nat) (cache : Cache) (id : nat) :
  cache_ok env cache -> cache_ok env (snd (extract env frames cache id)).
Proof.
  intro Hc. unfold extract.
  destruct (get_node_by_id (graph env) id) as [node|]; [|exact Hc].
  destruct (get_node_category node); try exact Hc;
  (destruct (find_module_for_node (graph env) frames node) as [[mn|]|];
     [|exact Hc|exact Hc];
   destruct (get_file_path env mn) as [fp|]; [|exact Hc];
   pose proof (read_file_cache_ok env cache fp Hc) as Hr;
   destruct (read_file env cache fp) as [[[content|]|e] c'];
   exact Hr).
Qed.

Lemma extract_batch_cache_ok (env : Env) (frames : nat) (cache : Cache)
  (ids : list nat) (acc : list (nat * NodeTextResult)) :
  cache_ok env cache -> cache_ok env (snd (extract_batch_aux env frames cache ids acc)).
Proof.
  revert cache acc; induction ids as [|id ids IH]; simpl; intros cache acc Hc;
    [exact Hc|].
  pose proof (extract_cache_ok env frames cache id Hc) as He.
  destruct (extract env frames cache id) as [[r|e] c']; simpl in *;
    [apply IH, He | exact He].
Qed.

Lemma level3_source_lines :
  level3_source = String.concat (String "010" EmptyString)
                    (firstn 3 (skipn 8 (splitlines nested_py))).
Proof. vm_compute. reflexivity. Qed.

(** C5: resolution of the owning file follows [DEFINES]/[DEFINES_METHOD]
    parents to a file-category node at any nesting depth (given enough
    interpreter frames); in the nested fixture, the module is found for
    the functions nested 1, 2 and 3 levels deep, and extracting [level3]
    returns its qualified name and exactly lines 9-11 of [nested.py],
    whatever the cache holds, provided it agrees with the file system -
    which every sequence of [extract] and [extract_batch] calls starting
    from the empty cache preserves. *)
Theorem nested_scope_roundtrip :
  (forall g n m d frames, contained_in g n m d -> d < frames ->
     find_module_for_node g frames n = Ok (Some m)) /\
  (forall frames id, 4 <= frames -> 2 <= id <= 5 ->
     exists n, get_node_by_id nested_graph id = Some n /\
     find_module_for_node nested_graph frames n =
       Ok (get_node_by_id nested_graph 1)) /\
  (forall frames cache, 4 <= frames -> cache_ok nested_env cache ->
     fst (extract nested_env frames cache 5) = Ok level3_result) /\
  (level3_source = String.concat (String "010" EmptyString)
                     (firstn 3 (skipn 8 (splitlines nested_py)))) /\
  (forall env frames cache id, cache_ok env cache ->
     cache_ok env (snd (extract env frames cache id))) /\
  (forall env frames cache ids, cache_ok env cache ->
     cache_ok env (snd (extract_batch env frames cache ids))).
Proof.
  split; [exact find_module_contained|].
  split.
  - intros frames id Hf Hid.
    destruct frames as [|[|[|[|f]]]]; try lia.
    assert (Hid' : id = 2 \/ id = 3 \/ id = 4 \/ id = 5) by lia.
    destruct Hid' as [ -> | [ -> | [ -> | -> ] ] ]; eexists; split; reflexivity.
  - split; [|split; [exact level3_source_lines|split;
                     [intros; apply extract_cache_ok; assumption
                     |intros; apply extract_batch_cache_ok; assumption]]].
    intros frames cache Hf Hc.
    destruct frames as [|[|[|[|f]]]]; try lia.
    destruct (read_file_text nested_env cache "/repo/nested.py" nested_py Hc eq_refl)
      as [c' Hr].
    cbn -[read_file]. rewrite Hr. vm_compute. reflexivity.
Qed.

(** C9: a code-category node whose [start_line] or [end_line] is missing
    or not an [int] gets no code chunk and no error, while the file path
    and the file content are filled in, once its owning file is found and
    read. *)
Theorem code_node_without_lines (env : Env) (frames : nat) (cache cache' : Cache)
  (id : nat) (node m : GraphNode) (fp content : string) :
  get_node_by_id (graph env) id = Some node ->
  get_node_category node = Code ->
  as_int (get (gproperties node) "start_line" PNone) = None \/
  as_int (get (gproperties node) "end_line" PNone) = None ->
  find_module_for_node (graph env) frames node = Ok (Some m) ->
  get_file_path env m = Some fp ->
  read_file env cache fp = (Ok (Some content), cache') ->
  exists res, extract env frames cache id = (Ok res, cache') /\
    code_chunk res = None /\ error res = None /\
    file_path res = Some fp /\ file_content res = Some content.
Proof.
  intros Hn Hcat Hl Hm Hp Hr.
  unfold extract. rewrite Hn, Hcat, Hm, Hp, Hr.
  eexists; split; [reflexivity|].
  destruct Hl as [Hl|Hl]; cbn; rewrite Hl;
    [| destruct (as_int (get (gproperties node) "start_line" PNone))];
    repeat split.
Qed.

Lemma code_node_without_lines_witness :
  exists res, extract lineless_env 1000 [] 6 =
    (Ok res, [("/repo/nested.py", Some nested_py)]) /\
    code_chunk res = None /\ error res = None /\
    file_path res = Some "/repo/nested.py" /\ file_content res = Some nested_py.
Proof.
  apply (code_node_without_lines lineless_env 1000 []
           [("/repo/nested.py", Some nested_py)] 6
           (mkGraphNode 6 ["Function"] [("qualified_name", PStr "module.helper");
                                        ("start_line", PStr "7")])
           (mkGraphNode 1 ["Module"]
              [("name", PStr "module"); ("qualified_name", PStr "module");
               ("path", PStr "nested.py")])
           "/repo/nested.py" nested_py);
    first [vm_compute; reflexivity | left; vm_compute; reflexivity].
Defined.

(** C6 fails on the code: [_read_file] turns only a missing file into the
    "Could not read file" result; an existing file that [read_text] cannot
    decode makes [extract] raise [UnicodeDecodeError], which also aborts an
    [extract_batch] and loses the results of the other ids; and a
    [DEFINES] cycle makes [extract] raise [RecursionError]. *)
Theorem extract_raises_on_unreadable_file :
  extract broken_env 1000 [] 1 = (Raise UnicodeDecodeError, []) /\
  extract broken_env 1000 [] 7 =
    (Ok (failure 7 None None "Node with id 7 not found"), []) /\
  extract_batch broken_env 1000 [] [7; 1] = (Raise UnicodeDecodeError, []) /\
  fst (extract broken_env 1000 [] 2) = Raise RecursionError.
Proof. vm_compute. repeat split. Qed.

End ExtractorFacts.

(** ** [CallProcessor] *)
Module CallFacts.
Import PyFacts CallProc CallSamples.
Local Open Scope list_scope.

Lemma key_eqb_eq (a b : Z * Z) : key_eqb a b = true <-> a = b.
Proof.
  destruct a as [a1 a2], b as [b1 b2]; unfold key_eqb; simpl.
  rewrite andb_true_iff, !Z.eqb_eq. split; [intros [-> ->]|intros [= -> ->]]; auto.
Qed.

Lemma key_eqb_refl (a : Z * Z) : key_eqb a a = true.
Proof. apply key_eqb_eq. reflexivity. Qed.

Lemma lookupk_setk (d : Contexts) (k k' : Z * Z) (v : CallContext) :
  lookupk (setk d k v) k' = if key_eqb k' k then Some v else lookupk d k'.
Proof.
  induction d as [|[k0 v0] d IH]; simpl.
  - reflexivity.
  - destruct (key_eqb k k0) eqn:E; simpl.
    + apply key_eqb_eq in E; subst k0. destruct (key_eqb k' k); reflexivity.
    + rewrite IH.
      destruct (key_eqb k' k0) eqn:E', (key_eqb k' k) eqn:E''; try reflexivity.
      apply key_eqb_eq in E', E''; subst. rewrite key_eqb_refl in E. discriminate.
Qed.

Lemma setk_keys (d : Contexts) (k : Z * Z) (v : CallContext) :
  lookupk d k <> None -> map fst (setk d k v) = map fst d.
Proof.
  induction d as [|[k0 v0] d IH]; simpl; [congruence|].
  destruct (key_eqb k k0); simpl; [reflexivity|].
  intro H; rewrite (IH H); reflexivity.
Qed.

Lemma lookupk_keys (d1 d2 : Contexts) (k : Z * Z) :
  map fst d1 = map fst d2 -> (lookupk d1 k = None <-> lookupk d2 k = None).
Proof.
  revert d2; induction d1 as [|[k1 v1] d1 IH]; intros [|[k2 v2] d2]; simpl;
    try discriminate; [tauto|].
  intros [= <- H]. destruct (key_eqb k k1); [split; discriminate|exact (IH _ H)].
Qed.

Lemma setk_calls (d : Contexts) (k : Z * Z) (c : CallContext) (x : TNode) :
  lookupk d k = Some c ->
  Permutation
    (all_call_nodes (setk d k (mkCallContext (caller_node c) (caller_qn c)
                                 (caller_type c) (class_context c)
                                 (call_nodes c ++ [x]))))
    (x :: all_call_nodes d).
Proof.
  unfold all_call_nodes.
  induction d as [|[k0 v0] d IH]; simpl; [discriminate|].
  destruct (key_eqb k k0); simpl.
  - intros [= <-]. rewrite <- app_assoc. simpl. apply Permutation_sym, Permutation_middle.
  - intro H. rewrite (IH H). apply Permutation_sym, Permutation_middle.
Qed.

Lemma find_from_first_match (n : TNode) (d : Contexts) :
  find_from n d = first_match (chain n) d.
Proof.
  revert n; fix IH 1; intros [s e p]; simpl.
  destruct (lookupk d (s, e)); [reflexivity|].
  destruct p as [p'|]; [apply IH|reflexivity].
Qed.

Lemma find_containing_first_match (c : TNode) (d : Contexts) :
  find_containing_context c d = first_match (ancestors c) d.
Proof.
  unfold find_containing_context, ancestors.
  destruct (parent c); [apply find_from_first_match|reflexivity].
Qed.

Lemma first_match_some (l : list TNode) (d : Contexts) (k : Z * Z) (c : CallContext) :
  first_match l d = Some (k, c) ->
  lookupk d k = Some c /\
  exists i a, nth_error l i = Some a /\ node_key a = k /\
    forall j b, j < i -> nth_error l j = Some b -> lookupk d (node_key b) = None.
Proof.
  induction l as [|a l IH]; simpl; [discriminate|].
  destruct (lookupk d (node_key a)) eqn:E.
  - intros [= <- <-]. split; [exact E|].
    exists 0, a. repeat split. intros j b Hj. lia.
  - intro H. destruct (IH H) as [Hl (i & a' & Hi & Hk & Hb)].
    split; [exact Hl|]. exists (S i), a'. repeat split; [exact Hi|exact Hk|].
    intros [|j] b Hj Hb'; simpl in Hb'; [injection Hb' as <-; exact E|].
    apply (Hb j); [lia|exact Hb'].
Qed.

Lemma first_match_found (l : list TNode) (d : Contexts) (a : TNode) :
  In a l -> lookupk d (node_key a) <> None -> first_match l d <> None.
Proof.
  induction l as [|a' l IH]; simpl; [tauto|].
  intros [<-|Hin] Hd.
  - destruct (lookupk d (node_key a')); [discriminate|contradiction].
  - destruct (lookupk d (node_key a')); [discriminate|exact (IH Hin Hd)].
Qed.

Lemma first_match_keys (l : list TNode) (d1 d2 : Contexts) :
  map fst d1 = map fst d2 ->
  option_map fst (first_match l d1) = option_map fst (first_match l d2).
Proof.
  intro H. induction l as [|a l IH]; simpl; [reflexivity|].
  destruct (lookupk d1 (node_key a)) eqn:E1, (lookupk d2 (node_key a)) eqn:E2;
    try reflexivity; try exact IH;
    apply (lookupk_keys _ _ (node_key a)) in H;
    [apply H in E2 | apply H in E1]; congruence.
Qed.

Definition attr_step (d : Contexts) (call_node : TNode) : Contexts :=
  match find_containing_context call_node d with
  | Some (k, c) =>
      setk d k (mkCallContext (caller_node c) (caller_qn c) (caller_type c)
                  (class_context c) (call_nodes c ++ [call_node]))
  | None => d
  end.

Lemma attr_step_keys (d : Contexts) (x : TNode) :
  map fst (attr_step d x) = map fst d.
Proof.
  unfold attr_step.
  destruct (find_containing_context x d) as [[k c]|] eqn:E; [|reflexivity].
  rewrite find_containing_first_match in E.
  apply setk_keys. destruct (first_match_some _ _ _ _ E) as [H _]. congruence.
Qed.

Lemma attr_step_keeps (d : Contexts) (y : TNode) (k : Z * Z) (ctx : CallContext)
  (x : TNode) :
  lookupk d k = Some ctx -> In x (call_nodes ctx) ->
  exists ctx', lookupk (attr_step d y) k = Some ctx' /\ In x (call_nodes ctx').
Proof.
  intros Hk Hx. unfold attr_step.
  destruct (find_containing_context y d) as [[k0 c]|] eqn:E; [|eauto].
  rewrite find_containing_first_match in E.
  destruct (first_match_some _ _ _ _ E) as [H0 _].
  rewrite lookupk_setk. destruct (key_eqb k k0) eqn:Ek; [|eauto].
  apply key_eqb_eq in Ek; subst k0. rewrite Hk in H0. injection H0 as <-.
  eexists; split; [reflexivity|]. simpl. apply in_or_app. left; exact Hx.
Qed.

Lemma attribute_calls_fold (calls : list TNode) (d : Contexts) :
  attribute_calls calls d = fold_left attr_step calls d.
Proof. reflexivity. Qed.

Lemma fold_keys (calls : list TNode) (d : Contexts) :
  map fst (fold_left attr_step calls d) = map fst d.
Proof.
  revert d; induction calls as [|x calls IH]; simpl; intro d; [reflexivity|].
  rewrite IH. apply attr_step_keys.
Qed.

Lemma fold_keeps (calls : list TNode) (d : Contexts) (k : Z * Z) (ctx : CallContext)
  (x : TNode) :
  lookupk d k = Some ctx -> In x (call_nodes ctx) ->
  exists ctx', lookupk (fold_left attr_step calls d) k = Some ctx' /\
               In x (call_nodes ctx').
Proof.
  revert d ctx; induction calls as [|y calls IH]; simpl; intros d ctx Hk Hx; [eauto|].
  destruct (attr_step_keeps d y k ctx x Hk Hx) as (ctx' & H1 & H2).
  exact (IH _ _ H1 H2).
Qed.

Lemma fold_calls (calls : list TNode) (d : Contexts) :
  (forall c, In c calls -> first_match (ancestors c) d <> None) ->
  Permutation (all_call_nodes (fold_left attr_step calls d)) (calls ++ all_call_nodes d).
Proof.
  revert d; induction calls as [|x calls IH]; simpl; intros d Hc; [reflexivity|].
  assert (Hd : forall c, In c calls -> first_match (ancestors c) (attr_step d x) <> None).
  { intros c Hin. pose proof (first_match_keys (ancestors c) _ _ (attr_step_keys d x)) as E.
    destruct (first_match (ancestors c) (attr_step d x)); [discriminate|intros _].
    destruct (first_match (ancestors c) d) eqn:E'; [discriminate|].
    exact (Hc c (or_intror Hin) E'). }
  rewrite (IH _ Hd).
  unfold attr_step. rewrite find_containing_first_match.
  destruct (first_match (ancestors x) d) as [[k c]|] eqn:E;
    [|exfalso; exact (Hc x (or_introl eq_refl) E)].
  destruct (first_match_some _ _ _ _ E) as [H0 _].
  rewrite (setk_calls _ _ _ x H0). apply Permutation_sym, Permutation_middle.
Qed.

Lemma fold_placed (calls : list TNode) (d : Contexts) (c : TNode) (k : Z * Z) :
  (forall c', In c' calls -> first_match (ancestors c') d <> None) ->
  In c calls -> option_map fst (first_match (ancestors c) d) = Some k ->
  exists ctx, lookupk (fold_left attr_step calls d) k = Some ctx /\ In c (call_nodes ctx).
Proof.
  revert d; induction calls as [|x calls IH]; simpl; intros d Hc Hin Hk; [tauto|].
  assert (Hd : forall c', In c' calls -> first_match (ancestors c') (attr_step d x) <> None).
  { intros c' Hin'. pose proof (first_match_keys (ancestors c') _ _ (attr_step_keys d x)) as E.
    destruct (first_match (ancestors c') (attr_step d x)); [discriminate|intros _].
    destruct (first_match (ancestors c') d) eqn:E'; [discriminate|].
    exact (Hc c' (or_intror Hin') E'). }
  destruct Hin as [->|Hin].
  - destruct (first_match (ancestors c) d) as [[k0 c0]|] eqn:E; [|discriminate].
    injection Hk as <-.
    destruct (first_match_some _ _ _ _ E) as [H0 _].
    apply (fold_keeps calls (attr_step d c) k0
             (mkCallContext (caller_node c0) (caller_qn c0) (caller_type c0)
                (class_context c0) (call_nodes c0 ++ [c]))).
    + unfold attr_step. rewrite find_containing_first_match, E, lookupk_setk, key_eqb_refl.
      reflexivity.
    + simpl. apply in_or_app. right; left; reflexivity.
  - apply IH; [exact Hd|exact Hin|].
    rewrite (first_match_keys _ _ _ (attr_step_keys d x)). exact Hk.
Qed.

Lemma build_keeps_key (entries : list Entry) (d : Contexts) (k : Z * Z) :
  lookupk d k <> None ->
  lookupk (fold_left (fun d (e : Entry) =>
             let '(n, qn, ty, cls) := e in
             setk d (node_key n) (mkCallContext n qn ty cls [])) entries d) k <> None.
Proof.
  revert d; induction entries as [|[[[n qn] ty] cls] entries IH]; simpl; intros d H;
    [exact H|].
  apply IH. rewrite lookupk_setk. destruct (key_eqb k (node_key n)); [discriminate|exact H].
Qed.

Lemma build_no_calls (entries : list Entry) (d : Contexts) :
  all_call_nodes d = [] ->
  all_call_nodes (fold_left (fun d (e : Entry) =>
             let '(n, qn, ty, cls) := e in
             setk d (node_key n) (mkCallContext n qn ty cls [])) entries d) = [].
Proof.
  assert (Hs : forall d k v, call_nodes v = [] -> all_call_nodes d = [] ->
                 all_call_nodes (setk d k v) = []).
  { unfold all_call_nodes. intros d0 k v Hv.
    induction d0 as [|[k0 v0] d0 IH]; simpl; [rewrite Hv; reflexivity|].
    intro H. apply app_eq_nil in H as [H1 H2].
    destruct (key_eqb k k0); simpl; rewrite ?Hv, ?H1, ?H2, ?IH; auto. }
  revert d; induction entries as [|[[[n qn] ty] cls] entries IH]; simpl; intros d H;
    [exact H|].
  apply IH, Hs; [reflexivity|exact H].
Qed.

(** C7: when every collected call has the module root among its ancestors,
    attribution keeps the context keys, places every collected call in
    exactly one context's call list (all lists together are a permutation
    of the collected calls), namely in the context registered under the
    byte range of its nearest ancestor whose range is registered. *)
Theorem call_attribution_unique (root_node : TNode) (module_qn : string)
  (entries : list Entry) (all_calls : list TNode) :
  (forall c, In c all_calls -> In root_node (ancestors c)) ->
  let contexts := build_caller_contexts root_node module_qn entries in
  let result := attribute_calls all_calls contexts in
  map fst result = map fst contexts /\
  Permutation (all_call_nodes result) all_calls /\
  (forall c, In c all_calls ->
     exists i a ctx,
       nth_error (ancestors c) i = Some a /\
       (forall j b, j < i -> nth_error (ancestors c) j = Some b ->
          lookupk contexts (node_key b) = None) /\
       lookupk result (node_key a) = Some ctx /\ In c (call_nodes ctx)).
Proof.
  intros Hroot contexts result.
  assert (Hr : lookupk contexts (node_key root_node) <> None).
  { apply build_keeps_key. simpl. rewrite key_eqb_refl. discriminate. }
  assert (Hf : forall c, In c all_calls -> first_match (ancestors c) contexts <> None).
  { intros c Hc. exact (first_match_found _ _ _ (Hroot c Hc) Hr). }
  unfold result. rewrite attribute_calls_fold.
  split; [apply fold_keys|split].
  - rewrite (fold_calls _ _ Hf).
    unfold contexts, build_caller_contexts. rewrite build_no_calls, app_nil_r;
      [reflexivity|reflexivity].
  - intros c Hc.
    destruct (first_match (ancestors c) contexts) as [[k c0]|] eqn:E;
      [|exfalso; exact (Hf c Hc E)].
    destruct (first_match_some _ _ _ _ E) as [_ (i & a & Hi & Hk & Hb)].
    destruct (fold_placed all_calls contexts c k Hf Hc) as (ctx & H1 & H2);
      [rewrite E; reflexivity|].
    exists i, a, ctx. subst k. repeat split; assumption.
Qed.

Lemma call_attribution_unique_witness :
  (forall c, In c [call_in_f; call_at_top] -> In root (ancestors c)) /\
  (let contexts := build_caller_contexts root "proj.m" entries in
   let result := attribute_calls [call_in_f; call_at_top] contexts in
   map fst result = map fst contexts /\
   Permutation (all_call_nodes result) [call_in_f; call_at_top] /\
   (forall c, In c [call_in_f; call_at_top] ->
      exists i a ctx,
        nth_error (ancestors c) i = Some a /\
        (forall j b, j < i -> nth_error (ancestors c) j = Some b ->
           lookupk contexts (node_key b) = None) /\
        lookupk result (node_key a) = Some ctx /\ In c (call_nodes ctx))).
Proof.
  assert (H : forall c, In c [call_in_f; call_at_top] -> In root (ancestors c)).
  { intros c [<-|[<-|[]]]; cbv; auto. }
  split; [exact H|].
  exact (call_attribution_unique root "proj.m" entries [call_in_f; call_at_top] H).
Defined.

Lemma process_calls_result (repo file : Path) (proj : string) (rest : string -> Outcome)
  (rel : Path) :
  relative_to file repo = Some rel ->
  process_calls_in_file repo file proj rest =
    match module_qn_of proj rel with
    | None => Returned (Some ValueError)
    | Some qn =>
        match rest qn with
        | Raised e => if is_exception e then Returned (Some e) else Raised e
        | Returned l => Returned l
        end
    end.
Proof.
  intro H. unfold process_calls_in_file. rewrite H.
  destruct (module_qn_of proj rel); reflexivity.
Qed.

(** C4 (amended): for a file under the repository root, whatever the rest of
    the [try] block does, [process_calls_in_file] only propagates exceptions
    that do not derive from [Exception] (KeyboardInterrupt, SystemExit); an
    [Exception] raised inside the [try] block is caught and logged and the
    method returns normally. *)
Theorem process_calls_contains_exceptions (repo file : Path) (proj : string)
  (rest : string -> Outcome) (rel : Path) :
  relative_to file repo = Some rel ->
  (forall e, process_calls_in_file repo file proj rest = Raised e ->
     is_exception e = false) /\
  (forall qn e, module_qn_of proj rel = Some qn -> rest qn = Raised e ->
     is_exception e = true ->
     process_calls_in_file repo file proj rest = Returned (Some e)).
Proof.
  intro H. rewrite (process_calls_result _ _ _ _ _ H). split.
  - intro e. destruct (module_qn_of proj rel) as [qn|]; [|discriminate].
    destruct (rest qn) as [l|e']; [discriminate|].
    destruct (is_exception e') eqn:E; [discriminate|]. intros [= <-]. exact E.
  - intros qn e -> -> ->. reflexivity.
Qed.

Lemma process_calls_contains_exceptions_witness :
  relative_to ["repo"; "pkg"; "m.py"] ["repo"] = Some ["pkg"; "m.py"] /\
  ((forall e, process_calls_in_file ["repo"] ["repo"; "pkg"; "m.py"] "proj" failing_rest
                = Raised e -> is_exception e = false) /\
   (forall qn e, module_qn_of "proj" ["pkg"; "m.py"] = Some qn -> failing_rest qn = Raised e ->
      is_exception e = true ->
      process_calls_in_file ["repo"] ["repo"; "pkg"; "m.py"] "proj" failing_rest
        = Returned (Some e))).
Proof.
  split; [reflexivity|].
  apply process_calls_contains_exceptions. reflexivity.
Defined.

(** C4 counterexample: the call propagates an exception to its caller when
    the file lies outside the repository root ([relative_to] raises
    [ValueError] before the [try]) and when the processing is interrupted
    by [KeyboardInterrupt], which [except Exception] does not catch. *)
Lemma process_calls_propagates :
  process_calls_in_file ["repo"] ["elsewhere"; "m.py"] "proj" ok_rest = Raised ValueError /\
  process_calls_in_file ["repo"] ["repo"; "m.py"] "proj" interrupted_rest
    = Raised KeyboardInterrupt /\
  process_calls_in_file ["repo"] ["repo"; "m.py"] "proj" failing_rest
    = Returned (Some KeyError).
Proof. vm_compute. repeat split. Qed.

End CallFacts.

(** ** [FileEnumerator] *)
Module FileEnumFacts.
Import Py PyFacts FileEnum.
Local Open Scope list_scope.

Lemma sorted_perm (l : list Path) : Permutation (sorted l) l.
Proof.
  unfold sorted. destruct (sort_by path_lt l) as [r|] eqn:E.
  - exact (sort_by_perm path_lt l r E).
  - exfalso. exact (sort_aux_total path_lt [] l (fun a b => ltac:(discriminate)) E).
Qed.

Lemma set_add_In (x p : Path) (s : list Path) : In x s -> In x (set_add p s).
Proof.
  unfold set_add. destruct (in_dec (list_eq_dec string_dec) p s); [auto|]. intro H. apply in_or_app. left; exact H.
Qed.

Lemma walk_keeps (fs : FileSystem) (skip : Path -> bool) (x : Path) (paths : list Path)
  (acc : list Path * list Path) :
  In x (fst acc) ->
  In x (fst (fold_left
        (fun (acc : list Path * list Path) path =>
           let '(directories, files) := acc in
           if skip path then (directories, files)
           else match kind_of fs path with
                | IsDir => (set_add path directories, files)
                | IsFile => (directories, files ++ [path])%list
                | IsOther => (directories, files)
                end) paths acc)).
Proof.
  revert acc; induction paths as [|p paths IH]; simpl; intros [ds fl] H; [exact H|].
  apply IH. simpl in H |- *.
  destruct (skip p); [exact H|]. destruct (kind_of fs p); simpl; auto using set_add_In.
Qed.

Lemma walk_skip_all (fs : FileSystem) (paths : list Path) (acc : list Path * list Path) :
  fold_left
        (fun (acc : list Path * list Path) path =>
           let '(directories, files) := acc in
           if (fun _ : Path => true) path then (directories, files)
           else match kind_of fs path with
                | IsDir => (set_add path directories, files)
                | IsFile => (directories, files ++ [path])%list
                | IsOther => (directories, files)
                end) paths acc = acc.
Proof.
  revert acc; induction paths as [|p paths IH]; simpl; intros [ds fl]; [reflexivity|].
  apply IH.
Qed.

Definition root_listed (fe : FileEnumerator) : Prop :=
  enumerated fe = true -> In (repo_path fe) (directories_ fe).

Lemma enumerate_root (fs : FileSystem) (skip : Path -> bool) (fe : FileEnumerator) :
  root_listed fe ->
  repo_path (enumerate fs skip fe) = repo_path fe /\
  enumerated (enumerate fs skip fe) = true /\
  root_listed (enumerate fs skip fe).
Proof.
  unfold root_listed, enumerate. intro H.
  destruct (enumerated fe) eqn:E; [auto|].
  match goal with |- context [fold_left ?f ?ps ?a] =>
    pose proof (walk_keeps fs skip (repo_path fe) ps a (or_introl eq_refl)) as Hw;
    destruct (fold_left f ps a) as [ds fl] end.
  simpl in Hw |- *. repeat split. intros _.
  apply (Permutation_in _ (Permutation_sym (sorted_perm ds))). exact Hw.
Qed.

Lemma run_calls_root (calls : list Call) (fe : FileEnumerator) :
  root_listed fe ->
  repo_path (run_calls fe calls) = repo_path fe /\ root_listed (run_calls fe calls).
Proof.
  revert fe; induction calls as [|[fs skip] calls IH]; simpl; intros fe H; [auto|].
  destruct (enumerate_root fs skip fe H) as (H1 & _ & H3).
  destruct (IH _ H3) as [H4 H5]. rewrite H4, H1. auto.
Qed.

(** C10: after one or more calls to [enumerate] on a [FileEnumerator] for
    [repo], whatever the file system and whatever paths the pattern sets
    make [should_skip_path] skip, the [directories] property returns a list
    containing [repo] itself; when every walked path is skipped the list is
    exactly [[repo]]. *)
Theorem directories_contain_root (repo : Path) (c : Call) (calls : list Call) :
  (exists ds, directories (run_calls (new repo) (c :: calls)) = inl ds /\ In repo ds) /\
  (forall fs, directories (enumerate fs (fun _ => true) (new repo)) = inl [repo]).
Proof.
  split.
  - destruct c as [fs skip].
    assert (H0 : root_listed (new repo)) by (intro H; discriminate).
    destruct (enumerate_root fs skip _ H0) as (H1 & H2 & H3).
    destruct (run_calls_root calls _ H3) as [H4 H5].
    simpl. unfold directories.
    set (fe := run_calls (enumerate fs skip (new repo)) calls) in *.
    assert (He : enumerated fe = true).
    { unfold fe. clear -H2. revert H2. generalize (enumerate fs skip (new repo)).
      induction calls as [|[fs' skip'] calls IH]; simpl; intros fe0 Hf; [exact Hf|].
      apply IH. unfold enumerate. rewrite Hf. exact Hf. }
    rewrite He. exists (directories_ fe). split; [reflexivity|].
    unfold root_listed in H5. rewrite H4, H1 in H5. exact (H5 He).
  - intro fs. unfold directories, enumerate. simpl. rewrite (walk_skip_all fs).
    reflexivity.
Qed.

End FileEnumFacts.

(** ** Further properties of the ingestor's export *)
Module ExportFacts.
Import Py PyFacts Ingestor IngestorVocab IngestorFacts FlushFacts.
Local Open Scope list_scope.

Section TotalIn.
Context {A : Type} (lt : A -> A -> option bool).

Lemma insert_by_total_in (x : A) (l : list A) :
  (forall y, In y l -> lt x y <> None) -> insert_by lt x l <> None.
Proof.
  induction l as [|y ys IH]; simpl; intro H; [discriminate|].
  destruct (lt x y) as [[|]|] eqn:E;
    [discriminate| |exfalso; exact (H y (or_introl eq_refl) E)].
  destruct (insert_by lt x ys); [discriminate|].
  exfalso. apply IH; [|reflexivity]. intros z Hz. apply H. right; exact Hz.
Qed.

(** A comparison that never raises on the elements being sorted never makes
    the sort fail. *)
Lemma sort_aux_total_in (acc l : list A) :
  (forall a b, In a (acc ++ l) -> In b (acc ++ l) -> lt a b <> None) ->
  sort_aux lt acc l <> None.
Proof.
  revert acc; induction l as [|x xs IH]; simpl; intros acc H; [discriminate|].
  destruct (insert_by lt x acc) as [acc'|] eqn:E.
  - apply IH. intros a b Ha Hb.
    pose proof (insert_by_perm lt x acc acc' E) as P.
    assert (Hsub : forall z, In z (acc' ++ xs) -> In z (acc ++ x :: xs)).
    { intros z Hz. apply in_app_or in Hz as [Hz|Hz].
      - apply (Permutation_in _ P) in Hz. destruct Hz as [<-|Hz];
          apply in_or_app; [right; left; reflexivity|left; exact Hz].
      - apply in_or_app. right; right; exact Hz. }
    exact (H a b (Hsub a Ha) (Hsub b Hb)).
  - exfalso. revert E. apply insert_by_total_in. intros y Hy.
    apply H; apply in_or_app; [right; left; reflexivity|left; exact Hy].
Qed.

End TotalIn.

Lemma get_non_null_not_none (p : PropertyDict) (k : string) (d : PropertyValue) :
  d <> PNone -> get (non_null p) k d <> PNone.
Proof.
  intro Hd. induction p as [|[k' v] p IH]; simpl; [exact Hd|].
  destruct (is_none v) eqn:En; simpl; [exact IH|].
  destruct (String.eqb k k'); [|exact IH]. destruct v; discriminate.
Qed.

Lemma stored_sort_value_not_none (p : PropertyDict) : stored_sort_value p <> PNone.
Proof.
  unfold stored_sort_value, py_or.
  repeat match goal with |- context [if ?b then _ else _] => destruct b end;
    apply get_non_null_not_none; discriminate.
Qed.

(** Every stored node comes from an [ensure_node_batch] call of the run. *)
Lemma stored_from_ops (ops : list Op) (k : string) (n : Node) :
  In (k, n) (nodes (run ops)) ->
  exists l p, In (EnsureNode l p) ops /\ n = mkNode (node_id n) [l] (non_null p).
Proof.
  induction ops as [|o ops IH] using rev_ind; simpl; [tauto|].
  rewrite run_app. simpl. intro H.
  assert (Hw : forall l p, In (EnsureNode l p) ops -> In (EnsureNode l p) (ops ++ [o]))
    by (intros; apply in_or_app; left; assumption).
  destruct o as [l p|f t g pr]; simpl in H.
  - unfold ensure_node_batch in H. rewrite get_node_id_key_nonempty in H.
    destruct (lookup (nodes (run ops)) (get_node_id_key l p)) eqn:E;
      [destruct (IH H) as (l' & p' & H1 & H2); eauto|].
    simpl in H. rewrite (dict_set_absent _ _ _ E) in H.
    apply in_app_or in H as [H|[H|[]]]; [destruct (IH H) as (l' & p' & H1 & H2); eauto|].
    injection H as <- <-. exists l, p. split; [apply in_or_app; right; left; reflexivity|].
    reflexivity.
  - destruct f as [[fl fk] fv], g as [[tl tk] tv]. simpl in H.
    destruct (IH H) as (l' & p' & H1 & H2); eauto.
Qed.

(** Extra: when, for each label, the [qn or name or path] values of all its
    [ensure_node_batch] calls are all strings or all [int]/[bool] values,
    neither sort of [flush_all] raises: it raises no [TypeError]. *)
Theorem flush_succeeds_on_uniform_keys (ops : list Op) (now : string) :
  (forall l p1 p2, In (EnsureNode l p1) ops -> In (EnsureNode l p2) ops ->
     is_str (stored_sort_value p1) = is_str (stored_sort_value p2)) ->
  flush_all (run ops) now <> inr TypeError.
Proof.
  intro Hu. unfold flush_all.
  destruct (sort_by node_lt (map snd (nodes (run ops)))) as [nl|] eqn:E1.
  - destruct (sort_by rel_lt (resolved_relationships (run ops))) as [rl|] eqn:E2; [discriminate|].
    exfalso. exact (sort_aux_total rel_lt [] _ rel_lt_total E2).
  - exfalso. revert E1. apply sort_aux_total_in. simpl.
    intros a b Ha Hb.
    apply in_map_iff in Ha as [[ka a'] [Ha1 Ha]], Hb as [[kb b'] [Hb1 Hb]].
    simpl in Ha1, Hb1; subst a' b'.
    destruct (stored_from_ops _ _ _ Ha) as (la & pa & Hia & ->).
    destruct (stored_from_ops _ _ _ Hb) as (lb & pb & Hib & ->).
    unfold node_lt, node_key_lt. simpl.
    change (py_or (get (non_null pa) "qualified_name" (PStr "")) _) with (stored_sort_value pa).
    change (py_or (get (non_null pb) "qualified_name" (PStr "")) _) with (stored_sort_value pb).
    destruct (String.eqb la lb) eqn:El; [|discriminate].
    apply String.eqb_eq in El; subst lb.
    pose proof (Hu _ _ _ Hia Hib) as Hs.
    pose proof (stored_sort_value_not_none pa) as Na.
    pose proof (stored_sort_value_not_none pb) as Nb.
    destruct (eqv _ _); [discriminate|].
    destruct (stored_sort_value pa), (stored_sort_value pb); simpl in *;
      try discriminate; congruence.
Qed.

Lemma flush_succeeds_on_uniform_keys_witness :
  (forall l p1 p2, In (EnsureNode l p1) IngestorSamples.schedule4 ->
     In (EnsureNode l p2) IngestorSamples.schedule4 ->
     is_str (stored_sort_value p1) = is_str (stored_sort_value p2)) /\
  flush_all (run IngestorSamples.schedule4) "t" <> inr TypeError.
Proof.
  assert (H : forall l p1 p2, In (EnsureNode l p1) IngestorSamples.schedule4 ->
     In (EnsureNode l p2) IngestorSamples.schedule4 ->
     is_str (stored_sort_value p1) = is_str (stored_sort_value p2)).
  { assert (Hs : forall l p, In (EnsureNode l p) IngestorSamples.schedule4 ->
                  is_str (stored_sort_value p) = true).
    { intros l p Hi. vm_compute in Hi.
      repeat destruct Hi as [Hi|Hi]; try discriminate; try contradiction;
        inversion Hi; subst; reflexivity. }
    intros l p1 p2 H1 H2. rewrite (Hs _ _ H1), (Hs _ _ H2). reflexivity. }
  split; [exact H|]. exact (flush_succeeds_on_uniform_keys _ _ H).
Defined.

Lemma resolved_ids (s : State) (r : Rel) :
  In r (resolved_relationships s) ->
  In (from_id r) (map snd (node_id_lookup s)) /\ In (to_id r) (map snd (node_id_lookup s)).
Proof.
  unfold resolved_relationships. intro H.
  apply in_flat_map in H as [br [_ H]].
  unfold resolve in H.
  destruct (lookup (node_id_lookup s) (from_key br)) as [f|] eqn:Ef,
           (lookup (node_id_lookup s) (to_key br)) as [t|] eqn:Et;
    try contradiction.
  destruct H as [<-|[]]. simpl.
  apply lookup_In in Ef, Et.
  split; apply in_map_iff; eexists; split; [|exact Ef| |exact Et]; reflexivity.
Qed.

(** Extra: an export of a run is self-consistent: its node ids are exactly
    [0 .. total_nodes - 1], each once; the totals in the metadata are the
    lengths of the two lists; and every exported relationship joins two
    exported nodes. *)
Theorem flush_ids_consistent (ops : list Op) (now : string) (g : GraphData) :
  flush_all (run ops) now = inl g ->
  Permutation (map node_id (gd_nodes g)) (seq 0 (total_nodes (gd_metadata g))) /\
  total_nodes (gd_metadata g) = length (gd_nodes g) /\
  total_relationships (gd_metadata g) = length (gd_relationships g) /\
  (forall r, In r (gd_relationships g) ->
     In (from_id r) (map node_id (gd_nodes g)) /\
     In (to_id r) (map node_id (gd_nodes g))).
Proof.
  destruct (run_inv ops) as (_ & Hseq & Hlk).
  unfold flush_all.
  destruct (sort_by node_lt (map snd (nodes (run ops)))) as [nl|] eqn:E1; [|discriminate].
  destruct (sort_by rel_lt (resolved_relationships (run ops))) as [rl|] eqn:E2;
    [|discriminate].
  intros [= <-]. simpl.
  pose proof (sort_by_perm _ _ _ E1) as P1.
  pose proof (sort_by_perm _ _ _ E2) as P2.
  assert (Hids : Permutation (map node_id nl) (seq 0 (node_counter (run ops)))).
  { rewrite <- Hseq, <- (map_map snd node_id). apply Permutation_map. exact P1. }
  assert (Hlen : length nl = node_counter (run ops)).
  { rewrite <- (length_map node_id), (Permutation_length Hids). apply length_seq. }
  rewrite Hlen. split; [exact Hids|split; [reflexivity|split; [reflexivity|]]].
  intros r Hr. apply (Permutation_in _ P2) in Hr.
  destruct (resolved_ids _ _ Hr) as [Hf Ht].
  rewrite Hlk, map_map in Hf, Ht. simpl in Hf, Ht.
  rewrite <- (map_map snd node_id) in Hf, Ht.
  assert (Q : Permutation (map node_id (map snd (nodes (run ops)))) (map node_id nl))
    by (apply Permutation_map, Permutation_sym, P1).
  split; eapply Permutation_in; eassumption.
Qed.

Lemma flush_ids_consistent_witness :
  exists g, flush_all (run IngestorSamples.schedule4) "t" = inl g /\
  (Permutation (map node_id (gd_nodes g)) (seq 0 (total_nodes (gd_metadata g))) /\
   total_nodes (gd_metadata g) = length (gd_nodes g) /\
   total_relationships (gd_metadata g) = length (gd_relationships g) /\
   (forall r, In r (gd_relationships g) ->
      In (from_id r) (map node_id (gd_nodes g)) /\
      In (to_id r) (map node_id (gd_nodes g)))).
Proof.
  destruct (flush_all (run IngestorSamples.schedule4) "t") as [g|e] eqn:E;
    [|vm_compute in E; discriminate].
  exists g. split; [reflexivity|]. exact (flush_ids_consistent _ _ _ E).
Defined.

Lemma no_colon_app (l1 l2 x y : string) :
  no_colon l1 = true -> no_colon l2 = true ->
  (l1 ++ ":" ++ x)%string = (l2 ++ ":" ++ y)%string -> l1 = l2 /\ x = y.
Proof.
  revert l2; induction l1 as [|c1 l1 IH]; intros [|c2 l2] H1 H2 H; simpl in *.
  - injection H as ->. split; reflexivity.
  - injection H as <- _. unfold no_colon in H2. simpl in H2. discriminate.
  - injection H as -> _. unfold no_colon in H1. simpl in H1. discriminate.
  - unfold no_colon in H1, H2. simpl in H1, H2.
    apply andb_true_iff in H1 as [_ H1], H2 as [_ H2].
    injection H as <- H. destruct (IH l2 H1 H2 H) as [-> ->]. split; reflexivity.
Qed.

(** Extra: identity keys of two labels without a colon are equal only when
    the labels are equal, so [ensure_node_batch] never merges nodes of two
    different such labels. *)
Theorem node_keys_separate_labels (l1 l2 : string) (p1 p2 : PropertyDict) :
  no_colon l1 = true -> no_colon l2 = true ->
  get_node_id_key l1 p1 = get_node_id_key l2 p2 -> l1 = l2.
Proof.
  intros H1 H2. unfold get_node_id_key.
  repeat match goal with |- context [if ?b then _ else _] => destruct b end;
    intro H; exact (proj1 (no_colon_app _ _ _ _ H1 H2 H)).
Qed.

Lemma node_keys_separate_labels_witness :
  "Class" = "Class".
Proof.
  apply (node_keys_separate_labels "Class" "Class"
           [("qualified_name", PStr "m.C")]
           [("qualified_name", PStr "m.C"); ("name", PStr "C")]);
    reflexivity.
Defined.

End ExportFacts.

(** ** More of [FileEnumerator] *)
Module FileEnumMoreFacts.
Import Py PyFacts FileEnum FileEnumFacts.
Local Open Scope list_scope.

Lemma ascii_compare_ot (a b : ascii) : Ascii.compare a b = OrdersEx.Ascii_as_OT.compare a b.
Proof. reflexivity. Qed.

Lemma string_compare_ot (a b : string) : String.compare a b = OrdersEx.String_as_OT.compare a b.
Proof.
  revert b; induction a as [|x a IH]; intros [|y b]; simpl; try reflexivity.
  all: rewrite ?ascii_compare_ot; destruct (OrdersEx.Ascii_as_OT.compare x y); auto.
Qed.

Lemma string_ltb_lt (a b : string) : String.ltb a b = true <-> OrdersEx.String_as_OT.lt a b.
Proof.
  unfold String.ltb, OrdersEx.String_as_OT.lt. rewrite string_compare_ot.
  destruct (OrdersEx.String_as_OT.compare a b); split; congruence.
Qed.

Lemma string_ltb_trans (a b c : string) :
  String.ltb a b = true -> String.ltb b c = true -> String.ltb a c = true.
Proof.
  rewrite !string_ltb_lt. destruct OrdersEx.String_as_OT.lt_strorder as [_ Htr]. apply Htr.
Qed.

Lemma string_ltb_irrefl (a : string) : String.ltb a a = false.
Proof.
  destruct (String.ltb a a) eqn:E; [|reflexivity].
  apply string_ltb_lt in E. exfalso.
  destruct OrdersEx.String_as_OT.lt_strorder as [Hirr _]. exact (Hirr a E).
Qed.

Lemma string_ltb_total (a b : string) :
  a = b \/ String.ltb a b = true \/ String.ltb b a = true.
Proof.
  rewrite !string_ltb_lt. destruct (OrdersEx.String_as_OT.compare_spec a b); auto.
Qed.

Lemma path_ltb_irrefl (a : Path) : path_ltb a a = false.
Proof. induction a as [|x a IH]; simpl; [reflexivity|]. rewrite String.eqb_refl. exact IH. Qed.

Lemma path_ltb_trans (a b c : Path) :
  path_ltb a b = true -> path_ltb b c = true -> path_ltb a c = true.
Proof.
  revert b c; induction a as [|x a IH]; intros [|y b] [|z c]; simpl; try congruence.
  destruct (String.eqb_spec x y) as [<-|Exy].
  - destruct (String.eqb x z); [apply IH|]. intros _ H2; exact H2.
  - destruct (String.eqb_spec y z) as [<-|Eyz].
    + intros H1 _. destruct (String.eqb_spec x y); [contradiction|exact H1].
    + intros H1 H2. pose proof (string_ltb_trans _ _ _ H1 H2) as H.
      destruct (String.eqb_spec x z) as [<-|]; [|exact H].
      rewrite string_ltb_irrefl in H. discriminate.
Qed.

Lemma path_ltb_total (a b : Path) :
  a = b \/ path_ltb a b = true \/ path_ltb b a = true.
Proof.
  revert b; induction a as [|x a IH]; intros [|y b]; simpl; auto.
  rewrite (String.eqb_sym y x).
  destruct (String.eqb x y) eqn:E.
  - apply String.eqb_eq in E; subst. destruct (IH b) as [->|[H|H]]; auto.
  - destruct (string_ltb_total x y) as [->|[H|H]]; auto.
    rewrite String.eqb_refl in E. discriminate.
Qed.

Lemma path_lt_asym (a b : Path) : path_lt a b = Some true -> path_lt b a = Some false.
Proof.
  unfold path_lt. intros [= H]. f_equal.
  destruct (path_ltb b a) eqn:E; [|reflexivity].
  pose proof (path_ltb_trans _ _ _ H E). rewrite path_ltb_irrefl in H0. discriminate.
Qed.

Lemma not_below_path_trans (a b c : Path) :
  not_below path_lt a b -> not_below path_lt b c -> not_below path_lt a c.
Proof.
  unfold not_below, path_lt. intros [= Hba] [= Hcb]. f_equal.
  destruct (path_ltb c a) eqn:Eca; [|reflexivity].
  destruct (path_ltb_total b a) as [->|[Hb|Ha]].
  - rewrite Eca in Hcb. discriminate.
  - rewrite Hb in Hba. discriminate.
  - rewrite (path_ltb_trans _ _ _ Eca Ha) in Hcb. discriminate.
Qed.

Lemma sorted_sorted (l : list Path) : Sorted (not_below path_lt) (sorted l).
Proof.
  unfold sorted. destruct (sort_by path_lt l) as [r|] eqn:E.
  - exact (sort_by_sorted path_lt path_lt_asym l r E).
  - exfalso. exact (sort_aux_total path_lt [] l (fun a b => ltac:(discriminate)) E).
Qed.

Lemma sorted_filter (f : Path -> bool) (l : list Path) :
  Sorted (not_below path_lt) l -> Sorted (not_below path_lt) (filter f l).
Proof.
  intro H. apply StronglySorted_Sorted.
  apply Sorted_StronglySorted in H; [|exact not_below_path_trans].
  induction H as [|a l Hs IH Hf]; simpl; [constructor|].
  destruct (f a); [|exact IH].
  constructor; [exact IH|]. apply Forall_forall. intros x Hx.
  apply filter_In in Hx as [Hx _]. exact (proj1 (Forall_forall _ _) Hf x Hx).
Qed.

Definition walk (fs : FileSystem) (skip : Path -> bool) :=
  fun (acc : list Path * list Path) path =>
    let '(directories, files) := acc in
    if skip path then (directories, files)
    else match kind_of fs path with
         | IsDir => (set_add path directories, files)
         | IsFile => (directories, files ++ [path])%list
         | IsOther => (directories, files)
         end.

Lemma walk_eq (fs : FileSystem) (skip : Path -> bool) (ds fl : list Path) (p : Path) :
  walk fs skip (ds, fl) p =
  if skip p then (ds, fl)
  else match kind_of fs p with
       | IsDir => (set_add p ds, fl)
       | IsFile => (ds, fl ++ [p])%list
       | IsOther => (ds, fl)
       end.
Proof. reflexivity. Qed.

Lemma walk_files (fs : FileSystem) (skip : Path -> bool) (paths : list Path)
  (ds fl : list Path) :
  snd (fold_left (walk fs skip) paths (ds, fl)) =
  fl ++ filter (fun p => negb (skip p) && is_file (kind_of fs p)) paths.
Proof.
  revert ds fl; induction paths as [|p paths IH]; cbn [fold_left filter]; intros ds fl;
    [rewrite app_nil_r; reflexivity|].
  rewrite walk_eq. destruct (skip p); simpl; [apply IH|].
  destruct (kind_of fs p); simpl; rewrite IH; try reflexivity.
  rewrite <- app_assoc. reflexivity.
Qed.

Lemma set_add_spec (p x : Path) (s : list Path) :
  In x (set_add p s) <-> x = p \/ In x s.
Proof.
  unfold set_add. destruct (in_dec (list_eq_dec string_dec) p s).
  - split; [auto|]. intros [->|H]; assumption.
  - rewrite in_app_iff. simpl.
    split; [intros [H|[<-|[]]]|intros [->|H]]; auto.
Qed.

Lemma set_add_nodup (p : Path) (s : list Path) : NoDup s -> NoDup (set_add p s).
Proof.
  unfold set_add. destruct (in_dec (list_eq_dec string_dec) p s); [auto|].
  intro H. apply NoDup_app; auto; [repeat constructor; simpl; tauto|].
  intros x Hx [<-|[]]. contradiction.
Qed.

Lemma walk_dirs (fs : FileSystem) (skip : Path -> bool) (paths : list Path)
  (ds fl : list Path) :
  NoDup ds ->
  NoDup (fst (fold_left (walk fs skip) paths (ds, fl))) /\
  (forall x, In x (fst (fold_left (walk fs skip) paths (ds, fl))) <->
     In x ds \/ (In x paths /\ skip x = false /\ kind_of fs x = IsDir)).
Proof.
  revert ds fl; induction paths as [|p paths IH]; cbn [fold_left In]; intros ds fl Hn.
  - split; [exact Hn|]. intro x; tauto.
  - rewrite walk_eq. destruct (skip p) eqn:Es.
    + destruct (IH ds fl Hn) as [H1 H2]. split; [exact H1|].
      intro x. rewrite H2. split; [tauto|].
      intros [H|[[->|H] [H' H'']]]; [auto|congruence|auto].
    + destruct (kind_of fs p) eqn:Ek.
      * destruct (IH (set_add p ds) fl (set_add_nodup _ _ Hn)) as [H1 H2].
        split; [exact H1|]. intro x. rewrite H2, set_add_spec.
        split; [intros [[->|H]|[H [H' H'']]]; auto|].
        intros [H|[[->|H] [H' H'']]]; auto.
      * destruct (IH ds (fl ++ [p]) Hn) as [H1 H2]. split; [exact H1|].
        intro x. rewrite H2. split; [tauto|].
        intros [H|[[->|H] [H' H'']]]; [auto|congruence|auto].
      * destruct (IH ds fl Hn) as [H1 H2]. split; [exact H1|].
        intro x. rewrite H2. split; [tauto|].
        intros [H|[[->|H] [H' H'']]]; [auto|congruence|auto].
Qed.

Lemma enumerate_unfold (fs : FileSystem) (skip : Path -> bool) (repo : Path) :
  enumerate fs skip (new repo) =
  let w := fold_left (walk fs skip) (sorted (rglob fs)) ([repo], []) in
  mkFileEnumerator repo (sorted (fst w)) (snd w) true.
Proof.
  unfold enumerate. simpl.
  change (fold_left _ (sorted (rglob fs)) ([repo], []))
    with (fold_left (walk fs skip) (sorted (rglob fs)) ([repo], [])).
  destruct (fold_left (walk fs skip) (sorted (rglob fs)) ([repo], [])). reflexivity.
Qed.

(** Extra: before [enumerate] the [directories] and [files] properties
    raise [RuntimeError]; the first [enumerate] call fixes the result, and
    every later call, whatever the file system and the patterns, is a
    no-op. *)
Theorem enumerate_only_once (repo : Path) (fs : FileSystem) (skip : Path -> bool)
  (calls : list Call) :
  directories (new repo) = inr RuntimeError /\ files (new repo) = inr RuntimeError /\
  run_calls (new repo) ((fs, skip) :: calls) = enumerate fs skip (new repo).
Proof.
  split; [reflexivity|split; [reflexivity|]].
  simpl. assert (He : enumerated (enumerate fs skip (new repo)) = true).
  { rewrite enumerate_unfold. reflexivity. }
  revert He. generalize (enumerate fs skip (new repo)).
  induction calls as [|[fs' skip'] calls IH]; simpl; intros fe He; [reflexivity|].
  assert (E : enumerate fs' skip' fe = fe) by (unfold enumerate; rewrite He; reflexivity).
  rewrite E. apply IH. exact He.
Qed.

(** Extra: [files] after [enumerate] lists exactly the walked paths that are
    not skipped and are regular files, in sorted path order. *)
Theorem enumerate_files (repo : Path) (fs : FileSystem) (skip : Path -> bool) :
  files (enumerate fs skip (new repo)) =
    inl (filter (fun p => negb (skip p) && is_file (kind_of fs p)) (sorted (rglob fs))) /\
  Sorted (not_below path_lt)
    (filter (fun p => negb (skip p) && is_file (kind_of fs p)) (sorted (rglob fs))).
Proof.
  split; [|apply sorted_filter, sorted_sorted].
  rewrite enumerate_unfold. unfold files. simpl. rewrite walk_files. reflexivity.
Qed.

(** Extra: [directories] after [enumerate] is sorted, has no duplicates, and
    holds exactly the repository root and the walked paths that are not
    skipped and are directories. *)
Theorem enumerate_directories (repo : Path) (fs : FileSystem) (skip : Path -> bool)
  (ds : list Path) :
  directories (enumerate fs skip (new repo)) = inl ds ->
  NoDup ds /\ Sorted (not_below path_lt) ds /\
  (forall p, In p ds <->
     p = repo \/ (In p (rglob fs) /\ skip p = false /\ kind_of fs p = IsDir)).
Proof.
  rewrite enumerate_unfold. unfold directories. simpl. intros [= <-].
  destruct (walk_dirs fs skip (sorted (rglob fs)) [repo] [])
    as [Hn Hin]; [repeat constructor; simpl; tauto|].
  split; [|split; [apply sorted_sorted|]].
  - apply (Permutation_NoDup (Permutation_sym (sorted_perm _))). exact Hn.
  - intro p. split.
    + intro H. apply (Permutation_in _ (sorted_perm _)), Hin in H.
      destruct H as [[->|[]]|[H H']]; [auto|].
      right. split; [apply (Permutation_in _ (sorted_perm _)); exact H|exact H'].
    + intro H. apply (Permutation_in _ (Permutation_sym (sorted_perm _))), Hin.
      destruct H as [->|[H H']]; [left; left; reflexivity|].
      right. split; [apply (Permutation_in _ (Permutation_sym (sorted_perm _))); exact H|exact H'].
Qed.

Lemma enumerate_directories_witness :
  let fs := mkFileSystem [["r"; "b"]; ["r"; "a"]; ["r"; "a"; "x.py"]; ["r"; ".git"]]
              (fun p => match rev p with
                        | "x.py" :: _ => IsFile
                        | _ => IsDir
                        end) in
  let skip := fun p : Path => existsb (String.eqb ".git") p in
  directories (enumerate fs skip (new ["r"])) = inl [["r"]; ["r"; "a"]; ["r"; "b"]] /\
  (NoDup [["r"]; ["r"; "a"]; ["r"; "b"]] /\
   Sorted (not_below path_lt) [["r"]; ["r"; "a"]; ["r"; "b"]] /\
   (forall p, In p [["r"]; ["r"; "a"]; ["r"; "b"]] <->
      p = ["r"] \/ (In p (rglob fs) /\ skip p = false /\ kind_of fs p = IsDir))).
Proof.
  intros fs skip.
  assert (H : directories (enumerate fs skip (new ["r"])) = inl [["r"]; ["r"; "a"]; ["r"; "b"]])
    by (vm_compute; reflexivity).
  split; [exact H|]. exact (enumerate_directories _ _ _ _ H).
Defined.

End FileEnumMoreFacts.

(** ** Module and function qualified names of the call processor *)
Module CallNamesFacts.
Import CallProc CallNames.
Local Open Scope list_scope.

Lemma string_app_assoc (a b c : string) : ((a ++ b) ++ c)%string = (a ++ (b ++ c))%string.
Proof. induction a as [|x a IH]; simpl; [reflexivity|]. rewrite IH. reflexivity. Qed.

Lemma list_ascii_app (a b : string) :
  list_ascii_of_string (a ++ b) = list_ascii_of_string a ++ list_ascii_of_string b.
Proof. induction a as [|x a IH]; simpl; [reflexivity|]. rewrite IH. reflexivity. Qed.

Lemma string_app_inv_tail (a b s : string) : (a ++ s)%string = (b ++ s)%string -> a = b.
Proof.
  intro H. apply (f_equal list_ascii_of_string) in H. rewrite !list_ascii_app in H.
  apply app_inv_tail in H.
  rewrite <- (string_of_list_ascii_of_string a), <- (string_of_list_ascii_of_string b), H.
  reflexivity.
Qed.

Lemma length_app (a b : string) : String.length (a ++ b) = String.length a + String.length b.
Proof. induction a as [|x a IH]; simpl; [reflexivity|]. rewrite IH. reflexivity. Qed.

Lemma substring_prefix (a b : string) : substring 0 (String.length a) (a ++ b) = a.
Proof. induction a as [|x a IH]; simpl; [destruct b; reflexivity|]. rewrite IH. reflexivity. Qed.

Definition no_dot (s : string) : bool :=
  forallb (fun c => negb (Ascii.eqb c ".")) (list_ascii_of_string s).

Lemma rfind_dot_app (a b : string) (i : nat) (f : option nat) :
  rfind_dot (a ++ b) i f = rfind_dot b (i + String.length a) (rfind_dot a i f).
Proof.
  revert i f; induction a as [|x a IH]; intros i f; simpl.
  - rewrite Nat.add_0_r. reflexivity.
  - rewrite IH. f_equal. lia.
Qed.

Lemma rfind_dot_no_dot (a : string) (i : nat) (f : option nat) :
  no_dot a = true -> rfind_dot a i f = f.
Proof.
  revert i; induction a as [|x a IH]; intros i; simpl; [reflexivity|].
  unfold no_dot; simpl. intro H. apply andb_prop in H as [Hx Ha].
  destruct (Ascii.eqb x "."); [discriminate|]. apply IH. exact Ha.
Qed.

Lemma strip_suffix_py (p : string) :
  p <> EmptyString -> no_dot p = true -> strip_suffix (p ++ ".py") = p.
Proof.
  intros Hne Hnd. unfold strip_suffix.
  rewrite rfind_dot_app, (rfind_dot_no_dot p) by exact Hnd. simpl.
  rewrite length_app. simpl.
  replace (0 <? String.length p)%nat with true
    by (symmetry; apply Nat.ltb_lt; destruct p; [contradiction|simpl; lia]).
  replace (String.length p <? String.length p + 3 - 1)%nat with true
    by (symmetry; apply Nat.ltb_lt; lia).
  apply substring_prefix.
Qed.

Lemma py_not_init (p : string) :
  p <> "__init__" -> String.eqb (p ++ ".py") INIT_PY = false.
Proof.
  intro H. apply String.eqb_neq. intro E. apply H.
  apply (string_app_inv_tail _ _ ".py"). exact E.
Qed.

Lemma py_not_mod_rs (p : string) : String.eqb (p ++ ".py") MOD_RS = false.
Proof.
  apply String.eqb_neq. intro E.
  apply (f_equal (fun s => rev (list_ascii_of_string s))) in E.
  rewrite list_ascii_app, rev_app_distr in E. simpl in E. discriminate.
Qed.

(** Extra: a package [p/__init__.py] and a sibling module [p.py] get the
    same module qualified name, [project.<dirs>.p], as long as [p] is a
    non-empty name without a dot other than [__init__]. *)
Theorem package_and_module_share_qn (project_name : string) (ds : list string)
  (p : string) :
  p <> EmptyString -> no_dot p = true -> p <> "__init__" ->
  module_qn_of project_name (ds ++ [p; INIT_PY]) =
    Some (String.concat "." (project_name :: ds ++ [p])) /\
  module_qn_of project_name (ds ++ [p ++ ".py"]%string) =
    Some (String.concat "." (project_name :: ds ++ [p])).
Proof.
  intros Hne Hnd Hinit. split.
  - unfold module_qn_of. rewrite rev_app_distr. simpl.
    rewrite rev_involutive. reflexivity.
  - unfold module_qn_of. rewrite rev_app_distr. simpl.
    rewrite py_not_init by exact Hinit. rewrite py_not_mod_rs. simpl.
    unfold parts_without_suffix. rewrite rev_app_distr. simpl.
    rewrite rev_involutive, strip_suffix_py by assumption. reflexivity.
Qed.

Lemma package_and_module_share_qn_witness :
  "graph" <> EmptyString /\ no_dot "graph" = true /\ "graph" <> "__init__" /\
  (module_qn_of "proj" (["src"] ++ ["graph"; INIT_PY]) =
     Some (String.concat "." ("proj" :: ["src"] ++ ["graph"])) /\
   module_qn_of "proj" (["src"] ++ ["graph" ++ ".py"]%string) =
     Some (String.concat "." ("proj" :: ["src"] ++ ["graph"]))).
Proof.
  assert (H1 : "graph" <> EmptyString) by discriminate.
  assert (H2 : no_dot "graph" = true) by reflexivity.
  assert (H3 : "graph" <> "__init__") by discriminate.
  split; [exact H1|split; [exact H2|split; [exact H3|]]].
  exact (package_and_module_share_qn "proj" ["src"] "graph" H1 H2 H3).
Defined.

(** The ancestors up to, not including, the first module node. *)
Fixpoint before_module (cfg : LanguageSpec) (l : list SNode) : list SNode :=
  match l with
  | [] => []
  | n :: l' => if mem (stype n) (module_node_types cfg) then [] else n :: before_module cfg l'
  end.

(** A node that ends the walk with [None]: a class type that is not also a
    function type. *)
Definition class_stop (cfg : LanguageSpec) (n : SNode) : bool :=
  negb (mem (stype n) (function_node_types cfg)) && mem (stype n) (class_node_types cfg).

(** The names the walk collects, nearest first. *)
Definition function_names (cfg : LanguageSpec) (l : list SNode) : list string :=
  flat_map (fun n => if mem (stype n) (function_node_types cfg)
                     then match sname n with Some t => [t] | None => [] end
                     else []) l.

Lemma collect_parts_spec (cfg : LanguageSpec) :
  forall (cur : SNode) (parts : list string),
  collect_parts cfg cur parts =
    if existsb (class_stop cfg) (before_module cfg (schain cur)) then None
    else Some (parts ++ function_names cfg (before_module cfg (schain cur))).
Proof.
  fix IH 1. intros [ty nm p] parts. simpl.
  destruct (mem ty (module_node_types cfg)) eqn:Em; simpl;
    [rewrite app_nil_r; reflexivity|].
  unfold class_stop at 1. simpl.
  destruct (mem ty (function_node_types cfg)) eqn:Ef; simpl.
  - destruct p as [p'|].
    + rewrite (IH p'). destruct (existsb _ _); [reflexivity|].
      destruct nm; simpl; rewrite <- ?app_assoc; reflexivity.
    + simpl. destruct nm; simpl; rewrite ?app_nil_r; reflexivity.
  - destruct (mem ty (class_node_types cfg)) eqn:Ec; simpl; [reflexivity|].
    destruct p as [p'|]; simpl; [apply IH|rewrite app_nil_r; reflexivity].
Qed.

Lemma concat_snoc (sep a : string) (l : list string) :
  l <> [] -> String.concat sep (a :: l) = (a ++ sep ++ String.concat sep l)%string.
Proof. destruct l; [contradiction|reflexivity]. Qed.

Lemma concat_app_one (sep : string) (l : list string) (x : string) :
  l <> [] -> String.concat sep (l ++ [x]) = (String.concat sep l ++ sep ++ x)%string.
Proof.
  induction l as [|a l IH]; intros H; [contradiction|].
  destruct l as [|b l]; [reflexivity|].
  specialize (IH ltac:(discriminate)).
  cbn [app] in IH |- *. cbn [String.concat] in IH |- *.
  destruct (l ++ [x]) eqn:E; [destruct l; discriminate|]. rewrite IH.
  destruct l; rewrite ?string_app_assoc; reflexivity.
Qed.

(** Extra: for a function node with a parent, [_build_nested_qualified_name]
    gives [None] when a class node (of a type that is not also a function
    type) lies between the function and its nearest enclosing module node;
    otherwise it gives the module name, the names of the enclosing named
    functions (outermost first) and the function's name, joined by dots. *)
Theorem nested_qualified_name_spec (func_node : SNode) (module_qn func_name : string)
  (cfg : LanguageSpec) :
  sparent func_node <> None ->
  build_nested_qualified_name func_node module_qn func_name cfg =
    let scope := before_module cfg (sancestors func_node) in
    if existsb (class_stop cfg) scope then None
    else Some (String.concat "."
                 (module_qn :: rev (function_names cfg scope) ++ [func_name])).
Proof.
  intro Hp. unfold build_nested_qualified_name, sancestors.
  destruct (sparent func_node) as [cur|]; [|contradiction]. simpl.
  rewrite collect_parts_spec. simpl.
  destruct (existsb _ _); [reflexivity|].
  destruct (rev (function_names cfg (before_module cfg (schain cur)))) as [|x xs] eqn:E.
  - reflexivity.
  - cbn [app]. change (x :: xs ++ [func_name]) with ((x :: xs) ++ [func_name]).
    rewrite concat_app_one by (intro H; discriminate H). reflexivity.
Qed.

Definition python_spec : LanguageSpec :=
  mkLanguageSpec ["module"] ["function_definition"] ["class_definition"].

Definition sample_inner : SNode :=
  mkSNode "function_definition" (Some "inner")
    (Some (mkSNode "block" None
      (Some (mkSNode "function_definition" (Some "outer")
        (Some (mkSNode "module" None None)))))).

Lemma nested_qualified_name_spec_witness :
  sparent sample_inner <> None /\
  build_nested_qualified_name sample_inner "proj.m" "inner" python_spec = Some "proj.m.outer.inner" /\
  build_nested_qualified_name sample_inner "proj.m" "inner" python_spec =
    (let scope := before_module python_spec (sancestors sample_inner) in
     if existsb (class_stop python_spec) scope then None
     else Some (String.concat "."
                  (("proj.m")%string :: rev (function_names python_spec scope) ++ [("inner")%string]))).
Proof.
  assert (Hp : sparent sample_inner <> None) by discriminate.
  split; [exact Hp|split; [reflexivity|]].
  exact (nested_qualified_name_spec sample_inner "proj.m" "inner" python_spec Hp).
Defined.

End CallNamesFacts.

(** ** More of the node text extractor *)
Module ExtractorApiFacts.
Import Py PyFacts Extractor ExtractorFacts ExtractorApi.
Local Open Scope list_scope.

Lemma read_file_fresh (env : Env) (cache : Cache) (p : string) :
  cache_ok env cache -> fst (read_file env cache p) = fst (read_file env [] p).
Proof.
  intro Hc. unfold read_file. simpl.
  destruct (lookup cache p) as [v|] eqn:E.
  - pose proof (Hc _ _ E) as Hv.
    destruct (lookup (fs env) p) as [[c|e]|]; [subst v; reflexivity|contradiction|subst v; reflexivity].
  - destruct (lookup (fs env) p) as [[c|e]|]; reflexivity.
Qed.

Lemma extract_fresh (env : Env) (frames : nat) (cache : Cache) (id : nat) :
  cache_ok env cache ->
  fst (extract env frames cache id) = extract_node_text env frames id.
Proof.
  intro Hc. unfold extract_node_text, extract.
  destruct (get_node_by_id (graph env) id) as [node|]; [|reflexivity].
  destruct (get_node_category node) eqn:Ecat; try reflexivity;
  (destruct (find_module_for_node (graph env) frames node) as [[mn|]|]; try reflexivity;
   destruct (get_file_path env mn) as [fp|]; [|reflexivity];
   pose proof (read_file_fresh env cache fp Hc) as Hr;
   destruct (read_file env cache fp) as [o1 c1];
   destruct (read_file env [] fp) as [o2 c2];
   simpl in Hr; subst o2;
   destruct o1 as [[content|]|e]; reflexivity).
Qed.

(** Extra: the file cache is invisible: [extract] on any cache that agrees
    with the file system returns what a fresh extractor returns. *)
Theorem extract_cache_transparent (env : Env) (frames : nat) (cache : Cache) (id : nat) :
  cache_ok env cache ->
  fst (extract env frames cache id) = extract_node_text env frames id.
Proof.
  exact (extract_fresh env frames cache id).
Qed.

Lemma extract_cache_transparent_witness :
  cache_ok ExtractorSamples.nested_env [("/repo/nested.py", Some ExtractorSamples.nested_py)] /\
  fst (extract ExtractorSamples.nested_env 10
         [("/repo/nested.py", Some ExtractorSamples.nested_py)] 5) =
    extract_node_text ExtractorSamples.nested_env 10 5.
Proof.
  assert (H : cache_ok ExtractorSamples.nested_env
                [("/repo/nested.py", Some ExtractorSamples.nested_py)]).
  { intros p v Hp. unfold lookup in Hp. simpl in Hp.
    destruct (String.eqb_spec p "/repo/nested.py") as [->|]; [|discriminate].
    injection Hp as <-. reflexivity. }
  split; [exact H|]. exact (extract_cache_transparent _ 10 _ 5 H).
Defined.

(** Extra: [_find_module_for_node] finds the module [m] exactly when [m] is
    reached from the node by following the defining relationships fewer
    times than the recursion limit allows. *)
Theorem find_module_iff (g : Graph) (frames : nat) (n m : GraphNode) :
  find_module_for_node g frames n = Ok (Some m) <->
  exists d, d < frames /\ contained_in g n m d.
Proof.
  split.
  - revert n; induction frames as [|frames IH]; intros n H; simpl in H; [discriminate|].
    destruct (meets (glabels n) LABELS_WITH_PATH) eqn:Ep.
    + injection H as <-. exists 0. split; [lia|]. constructor. exact Ep.
    + destruct (meets (glabels n) ["Method"]) eqn:Em.
      * destruct (find_parent_via_relationship g (gnode_id n) "DEFINES_METHOD") as [c|] eqn:Ec;
          [|discriminate].
        destruct (IH c H) as [d [Hd Hc]]. exists (S d). split; [lia|].
        eapply contained_method; eassumption.
      * destruct (meets (glabels n) ["Function"; "Class"]) eqn:Ef; [|discriminate].
        destruct (find_parent_via_relationship g (gnode_id n) "DEFINES") as [p|] eqn:Ec;
          [|discriminate].
        destruct (IH p H) as [d [Hd Hc]]. exists (S d). split; [lia|].
        eapply contained_defined; eassumption.
  - intros [d [Hd Hc]]. exact (find_module_contained g n m d frames Hc Hd).
Qed.

(** Extra: a node that has a line-info label but none of [Function],
    [Class], [Method], [Module] or [File] (an [Interface], [Enum], [Type] or
    [Union] node) never gets a module: [extract] reports "Could not find
    module/file for node" and leaves the cache as it was. *)
Theorem line_info_without_parent_rel (env : Env) (frames : nat) (cache : Cache)
  (id : nat) (node : GraphNode) :
  get_node_by_id (graph env) id = Some node ->
  meets (glabels node) LABELS_WITH_LINE_INFO = true ->
  meets (glabels node) LABELS_WITH_PATH = false ->
  meets (glabels node) ["Method"] = false ->
  meets (glabels node) ["Function"; "Class"] = false ->
  0 < frames ->
  exists qn, extract env frames cache id =
    (Ok (failure id qn None "Could not find module/file for node"), cache).
Proof.
  intros Hn Hl Hp Hm Hf Hfr. unfold extract. rewrite Hn.
  unfold get_node_category. rewrite Hl.
  destruct frames as [|frames]; [lia|]. simpl. rewrite Hp, Hm, Hf. eauto.
Qed.

Definition interface_env : Env :=
  mkEnv (mkGraph [mkGraphNode 7 ["Interface"] [("qualified_name", PStr "proj.m.I")]] []) [] "/repo".

Lemma line_info_without_parent_rel_witness :
  exists qn, extract interface_env 5 [] 7 =
    (Ok (failure 7 qn None "Could not find module/file for node"), []).
Proof.
  apply (line_info_without_parent_rel interface_env 5 [] 7
           (mkGraphNode 7 ["Interface"] [("qualified_name", PStr "proj.m.I")]));
    [reflexivity|reflexivity|reflexivity|reflexivity|reflexivity|lia].
Defined.

End ExtractorApiFacts.

(** ** Line ranges of [_extract_lines] *)
Module ExtractLinesFacts.
Import Extractor.

Lemma py_slice_same {A} (l : list A) (a1 b1 a2 b2 : Z) :
  slice_index (Z.of_nat (length l)) a1 = slice_index (Z.of_nat (length l)) a2 ->
  slice_index (Z.of_nat (length l)) b1 = slice_index (Z.of_nat (length l)) b2 ->
  py_slice l a1 b1 = py_slice l a2 b2.
Proof. intros Ha Hb. unfold py_slice. rewrite Ha, Hb. reflexivity. Qed.

Lemma slice_index_nonneg (len i : Z) : (0 <= i)%Z -> slice_index len i = Z.min i len.
Proof. intro H. unfold slice_index. destruct (Z.ltb_spec i 0); [lia|reflexivity]. Qed.

(** Extra: [_extract_lines] clamps its range to the file: a start line at
    or below 1 reads from the first line, an end line at or past the last
    line reads to the end, and the range [1, number of lines] gives every
    line of the file joined by newlines. *)
Theorem extract_lines_clamps (content : string) (s e : Z) :
  let n := Z.of_nat (length (splitlines content)) in
  ((s <= 1)%Z -> extract_lines content s e = extract_lines content 1 e) /\
  ((n <= e)%Z -> extract_lines content s e = extract_lines content s n) /\
  extract_lines content 1 n = String.concat (String "010" EmptyString) (splitlines content).
Proof.
  intro n. unfold extract_lines. fold n.
  split; [|split].
  - intro Hs. f_equal. apply py_slice_same; [|reflexivity].
    replace (Z.max 0 (s - 1)) with 0%Z by lia. reflexivity.
  - intro He. f_equal. apply py_slice_same; [reflexivity|].
    replace (Z.min n e) with n by lia. replace (Z.min n n) with n by lia. reflexivity.
  - f_equal. unfold py_slice. fold n.
    replace (Z.max 0 (1 - 1)) with 0%Z by lia. replace (Z.min n n) with n by lia.
    rewrite !slice_index_nonneg by lia.
    replace (Z.min 0 n) with 0%Z by lia. replace (Z.min n n) with n by lia.
    simpl. unfold n. rewrite Z.sub_0_r, Nat2Z.id. apply firstn_all.
Qed.

(** Extra: an end line before the start line gives an empty chunk, and a
    negative end line counts from the end of the file as a Python slice
    bound does ([-1] drops the last line). *)
Theorem extract_lines_reversed_and_negative (content : string) (s e : Z) :
  let n := Z.of_nat (length (splitlines content)) in
  ((0 <= e)%Z -> (e < s)%Z -> extract_lines content s e = EmptyString) /\
  ((e < 0)%Z -> extract_lines content s e = extract_lines content s (Z.max 0 (n + e))).
Proof.
  intro n. unfold extract_lines. fold n. split.
  - intros He Hs. unfold py_slice. fold n.
    rewrite !slice_index_nonneg by lia.
    replace (Z.to_nat (Z.min (Z.min n e) n - Z.min (Z.max 0 (s - 1)) n)) with 0%nat by lia.
    reflexivity.
  - intro He. f_equal. apply py_slice_same; [reflexivity|]. fold n.
    unfold slice_index.
    destruct (Z.ltb_spec (Z.min n e) 0), (Z.ltb_spec (Z.min n (Z.max 0 (n + e))) 0); lia.
Qed.

End ExtractLinesFacts.

(** ** [extract_batch], [get_node_chunk] and [get_node_chunks] *)
Module BatchFacts.
Import Py PyFacts Extractor ExtractorFacts ExtractorApi ExtractorApiFacts.
Local Open Scope list_scope.

(** The keys of a dict built by assigning the ids in order: first
    occurrences, in order. *)
Fixpoint dedup_ids (seen : list nat) (l : list nat) : list nat :=
  match l with
  | [] => []
  | x :: l' =>
      if existsb (Nat.eqb x) seen then dedup_ids seen l'
      else x :: dedup_ids (seen ++ [x]) l'
  end.

Lemma existsb_nat_In (x : nat) (l : list nat) : existsb (Nat.eqb x) l = true <-> In x l.
Proof.
  rewrite existsb_exists. split.
  - intros [y [Hy E]]. apply Nat.eqb_eq in E. subst. exact Hy.
  - intro H. exists x. split; [exact H|apply Nat.eqb_refl].
Qed.

Lemma dedup_ids_In (seen l : list nat) (x : nat) :
  In x (dedup_ids seen l) <-> In x l /\ ~ In x seen.
Proof.
  revert seen; induction l as [|y l IH]; intro seen; simpl; [tauto|].
  destruct (existsb (Nat.eqb y) seen) eqn:E.
  - apply existsb_nat_In in E. rewrite IH.
    split; [tauto|]. intros [[<-|H] H']; [contradiction|auto].
  - simpl. rewrite IH, in_app_iff. simpl.
    assert (~ In y seen) by (intro H; apply existsb_nat_In in H; congruence).
    split.
    + intros [<-|[H1 H2]]; [auto|]. split; [auto|tauto].
    + intros [[<-|H1] H2]; [auto|]. destruct (Nat.eq_dec y x) as [->|]; [auto|].
      right. split; [exact H1|]. intros [H3|[H3|[]]]; [contradiction|congruence].
Qed.

Lemma dedup_ids_NoDup (seen l : list nat) : NoDup (dedup_ids seen l).
Proof.
  revert seen; induction l as [|y l IH]; intro seen; simpl; [constructor|].
  destruct (existsb (Nat.eqb y) seen); [apply IH|].
  constructor; [|apply IH]. rewrite dedup_ids_In. intros [_ H].
  apply H, in_app_iff. right. left. reflexivity.
Qed.

Lemma existsb_keys (acc : list (nat * NodeTextResult)) (id : nat) :
  existsb (fun kv => Nat.eqb (fst kv) id) acc = existsb (Nat.eqb id) (map fst acc).
Proof.
  induction acc as [|kv acc IH]; simpl; [reflexivity|]. rewrite IH, Nat.eqb_sym. reflexivity.
Qed.

Lemma batch_aux_ok (env : Env) (frames : nat) (ids : list nat) :
  forall (cache : Cache) (acc : list (nat * NodeTextResult)),
  cache_ok env cache ->
  (forall id, In id ids -> exists r, extract_node_text env frames id = Ok r) ->
  exists kvs, fst (extract_batch_aux env frames cache ids acc) = Ok kvs /\
    map fst kvs = map fst acc ++ dedup_ids (map fst acc) ids /\
    (forall i r, In (i, r) kvs -> In (i, r) acc \/ extract_node_text env frames i = Ok r).
Proof.
  induction ids as [|id ids IH]; intros cache acc Hc Hok; simpl.
  - exists acc. rewrite app_nil_r. split; [reflexivity|split; [reflexivity|auto]].
  - destruct (Hok id (or_introl eq_refl)) as [r Hr].
    pose proof (extract_fresh env frames cache id Hc) as Ht.
    pose proof (extract_cache_ok env frames cache id Hc) as Hc'.
    destruct (extract env frames cache id) as [o c'] eqn:Ex. simpl in Ht, Hc'.
    rewrite Hr in Ht. subst o.
    rewrite existsb_keys.
    destruct (existsb (Nat.eqb id) (map fst acc)) eqn:Ek.
    + destruct (IH c' (map (fun kv => if Nat.eqb (fst kv) id then (id, r) else kv) acc) Hc'
                  (fun i Hi => Hok i (or_intror Hi))) as [kvs [H1 [H2 H3]]].
      assert (Hm : map fst (map (fun kv => if Nat.eqb (fst kv) id then (id, r) else kv) acc)
                   = map fst acc).
      { rewrite map_map. apply map_ext. intros [k v]. simpl.
        destruct (Nat.eqb_spec k id); simpl; congruence. }
      exists kvs. rewrite Hm in H2. split; [exact H1|split; [exact H2|]].
      intros i r' Hin. destruct (H3 i r' Hin) as [Ha|Ha]; [|auto].
      apply in_map_iff in Ha as [[k v] [Ekv Hkv]]. simpl in Ekv.
      destruct (Nat.eqb_spec k id).
      * injection Ekv as <- <-. right. exact Hr.
      * injection Ekv as <- <-. left. exact Hkv.
    + destruct (IH c' (acc ++ [(id, r)]) Hc' (fun i Hi => Hok i (or_intror Hi)))
        as [kvs [H1 [H2 H3]]].
      exists kvs. rewrite map_app in H2. simpl in H2. rewrite <- app_assoc in H2.
      split; [exact H1|split; [exact H2|]].
      intros i r' Hin. destruct (H3 i r' Hin) as [Ha|Ha]; [|auto].
      apply in_app_iff in Ha as [Ha|[Ha|[]]]; [auto|]. injection Ha as <- <-. auto.
Qed.

Lemma batch_ok (env : Env) (frames : nat) (cache : Cache) (ids : list nat) :
  cache_ok env cache ->
  (forall id, In id ids -> exists r, extract_node_text env frames id = Ok r) ->
  exists kvs, fst (extract_batch env frames cache ids) = Ok kvs /\
    map fst kvs = dedup_ids [] ids /\
    (forall i r, In (i, r) kvs -> extract_node_text env frames i = Ok r).
Proof.
  intros Hc Hok. destruct (batch_aux_ok env frames ids cache [] Hc Hok) as [kvs [H1 [H2 H3]]].
  exists kvs. split; [exact H1|split; [exact H2|]].
  intros i r Hin. destruct (H3 i r Hin) as [[]|H]; exact H.
Qed.

(** Extra: when no id makes [extract] raise, [extract_batch] (from a cache
    that agrees with the file system) returns one entry per distinct id, in
    the order of first occurrence, each holding what a fresh extractor
    returns for that id. *)
Theorem extract_batch_ok (env : Env) (frames : nat) (cache : Cache) (ids : list nat) :
  cache_ok env cache ->
  (forall id, In id ids -> exists r, extract_node_text env frames id = Ok r) ->
  exists kvs, fst (extract_batch env frames cache ids) = Ok kvs /\
    map fst kvs = dedup_ids [] ids /\
    (forall i r, In (i, r) kvs -> extract_node_text env frames i = Ok r).
Proof.
  exact (batch_ok env frames cache ids).
Qed.

Lemma extract_batch_ok_witness :
  exists kvs, fst (extract_batch ExtractorSamples.nested_env 10 [] [5; 3; 5]) = Ok kvs /\
    map fst kvs = dedup_ids [] [5; 3; 5] /\
    (forall i r, In (i, r) kvs -> extract_node_text ExtractorSamples.nested_env 10 i = Ok r).
Proof.
  apply extract_batch_ok; [apply cache_ok_nil|].
  intros id [<-|[<-|[<-|[]]]]; eexists; reflexivity.
Defined.

Lemma batch_aux_raise (env : Env) (frames : nat) (ids : list nat) :
  forall (cache : Cache) (acc : list (nat * NodeTextResult)) (e : PyExc),
  cache_ok env cache ->
  fst (extract_batch_aux env frames cache ids acc) = Raise e ->
  exists id, In id ids /\ extract_node_text env frames id = Raise e.
Proof.
  induction ids as [|id ids IH]; intros cache acc e Hc H; simpl in H; [discriminate|].
  pose proof (extract_fresh env frames cache id Hc) as Ht.
  pose proof (extract_cache_ok env frames cache id Hc) as Hc'.
  destruct (extract env frames cache id) as [[r|e'] c'] eqn:Ex; simpl in Ht, Hc', H.
  - destruct (IH _ _ e Hc' H) as [i [Hi Hr]]. exists i. split; [right; exact Hi|exact Hr].
  - injection H as ->. exists id. split; [left; reflexivity|symmetry; exact Ht].
Qed.

Lemma batch_aux_some_raise (env : Env) (frames : nat) (ids : list nat) :
  forall (cache : Cache) (acc : list (nat * NodeTextResult)) (id : nat) (e : PyExc),
  cache_ok env cache -> In id ids -> extract_node_text env frames id = Raise e ->
  exists e', fst (extract_batch_aux env frames cache ids acc) = Raise e'.
Proof.
  induction ids as [|id0 ids IH]; intros cache acc id e Hc Hin He; [destruct Hin|simpl].
  pose proof (extract_fresh env frames cache id0 Hc) as Ht.
  pose proof (extract_cache_ok env frames cache id0 Hc) as Hc'.
  destruct (extract env frames cache id0) as [[r|e'] c'] eqn:Ex; simpl in Ht, Hc'.
  - destruct Hin as [<-|Hin]; [congruence|]. exact (IH _ _ id e Hc' Hin He).
  - simpl. eauto.
Qed.

(** Extra: [extract_batch] raises exactly when the extraction of one of the
    ids raises, and then with the exception of such an id: an error on one
    id aborts the whole batch. *)
Theorem extract_batch_raises (env : Env) (frames : nat) (cache : Cache) (ids : list nat) :
  cache_ok env cache ->
  (forall e, fst (extract_batch env frames cache ids) = Raise e ->
     exists id, In id ids /\ extract_node_text env frames id = Raise e) /\
  ((exists id e, In id ids /\ extract_node_text env frames id = Raise e) ->
     exists e, fst (extract_batch env frames cache ids) = Raise e).
Proof.
  intro Hc. split.
  - intros e H. exact (batch_aux_raise env frames ids cache [] e Hc H).
  - intros [id [e [Hin He]]]. exact (batch_aux_some_raise env frames ids cache [] id e Hc Hin He).
Qed.

Lemma extract_batch_raises_witness :
  exists id, In id [1; 2] /\
    extract_node_text ExtractorSamples.broken_env 10 id = Raise UnicodeDecodeError.
Proof.
  apply (proj1 (extract_batch_raises ExtractorSamples.broken_env 10 [] [1; 2]
                  (cache_ok_nil _))).
  reflexivity.
Defined.

(** Extra: [get_node_chunk] returns a chunk exactly for a file node or a
    code node with integer start and end lines whose module is found and
    whose file exists and reads as text; the chunk is the whole file for a
    file node and the lines [_extract_lines] takes for a code node. *)
Theorem get_node_chunk_iff (env : Env) (frames : nat) (id : nat) (fp chunk : string) :
  get_node_chunk env frames id = Ok (Some (fp, chunk)) <->
  exists node m content,
    get_node_by_id (graph env) id = Some node /\
    find_module_for_node (graph env) frames node = Ok (Some m) /\
    get_file_path env m = Some fp /\
    lookup (fs env) fp = Some (Text content) /\
    ((get_node_category node = FileCat /\ chunk = content) \/
     (get_node_category node = Code /\
      exists a b, as_int (get (gproperties node) "start_line" PNone) = Some a /\
                  as_int (get (gproperties node) "end_line" PNone) = Some b /\
                  chunk = extract_lines content a b)).
Proof.
  unfold get_node_chunk, extract_node_text, extract. split.
  - destruct (get_node_by_id (graph env) id) as [node|] eqn:En; [|discriminate].
    destruct (get_node_category node) eqn:Ecat; try discriminate;
    (destruct (find_module_for_node (graph env) frames node) as [[m|]|e] eqn:Em;
       try discriminate;
     destruct (get_file_path env m) as [fp'|] eqn:Ef; [|discriminate];
     unfold read_file; simpl;
     destruct (lookup (fs env) fp') as [[content|e]|] eqn:Et; simpl; try discriminate).
    + destruct (as_int (get (gproperties node) "start_line" PNone)) as [a|] eqn:Ea;
      destruct (as_int (get (gproperties node) "end_line" PNone)) as [b|] eqn:Eb;
      unfold chunk_of; simpl; try discriminate.
      intros [= <- <-]. exists node, m, content.
      do 4 (split; [first [assumption|reflexivity]|]). right. split; [exact Ecat|]. exists a, b. auto.
    + unfold chunk_of; simpl. intros [= <- <-]. exists node, m, content.
      do 4 (split; [first [assumption|reflexivity]|]). left. split; [exact Ecat|reflexivity].
  - intros (node & m & content & En & Em & Ef & Et & Hc). rewrite En.
    destruct Hc as [[Hcat ->]|[Hcat (a & b & Ha & Hb & ->)]]; rewrite Hcat, Em, Ef;
      unfold read_file; simpl; rewrite Et; simpl; [reflexivity|].
    rewrite Ha, Hb. reflexivity.
Qed.

Lemma sorted_map {A B} (R : A -> A -> Prop) (R' : B -> B -> Prop) (f : A -> B) (l : list A) :
  (forall a b, R a b -> R' (f a) (f b)) -> Sorted R l -> Sorted R' (map f l).
Proof.
  intros HR H. induction H as [|a l Hs IH Hd]; simpl; constructor; [exact IH|].
  destruct Hd; simpl; constructor. apply HR. assumption.
Qed.

Lemma item_lt_asym (a b : nat * NodeTextResult) :
  item_lt a b = Some true -> item_lt b a = Some false.
Proof.
  unfold item_lt. intros [= H]. apply Nat.ltb_lt in H. f_equal. apply Nat.ltb_ge. lia.
Qed.

(** Extra: when no id makes [extract] raise, [get_node_chunks] maps each
    distinct id, in increasing order, to what [get_node_chunk] returns for
    it. *)
Theorem get_node_chunks_ok (env : Env) (frames : nat) (ids : list nat) :
  (forall id, In id ids -> exists r, extract_node_text env frames id = Ok r) ->
  exists out, get_node_chunks env frames ids = Ok out /\
    NoDup (map fst out) /\ Sorted le (map fst out) /\
    (forall i, In i (map fst out) <-> In i ids) /\
    (forall i c, In (i, c) out -> get_node_chunk env frames i = Ok c).
Proof.
  intro Hok.
  destruct (batch_ok env frames [] ids (cache_ok_nil env) Hok) as [kvs [H1 [H2 H3]]].
  unfold get_node_chunks, extract_nodes_text. rewrite H1.
  destruct (sort_by item_lt kvs) as [items|] eqn:Es.
  2:{ exfalso. exact (sort_aux_total item_lt [] kvs (fun a b => ltac:(discriminate)) Es). }
  pose proof (sort_by_perm item_lt kvs items Es) as Hp.
  pose proof (sort_by_sorted item_lt item_lt_asym kvs items Es) as Hs.
  exists (map (fun kv => (fst kv, chunk_of (snd kv))) items).
  rewrite map_map. simpl.
  assert (Hpk : Permutation (map fst items) (dedup_ids [] ids))
    by (rewrite <- H2; apply Permutation_map; exact Hp).
  split; [reflexivity|split; [|split; [|split]]].
  - apply (Permutation_NoDup (Permutation_sym Hpk)), dedup_ids_NoDup.
  - apply (sorted_map (not_below item_lt) le fst); [|exact Hs].
    unfold not_below, item_lt. intros a b [= H]. apply Nat.ltb_ge in H. exact H.
  - intro i. split.
    + intro H. apply (Permutation_in _ Hpk), dedup_ids_In in H. apply H.
    + intro H. apply (Permutation_in _ (Permutation_sym Hpk)), dedup_ids_In.
      split; [exact H|intros []].
  - intros i c Hin. apply in_map_iff in Hin as [[k r] [E Hkr]]. simpl in E.
    injection E as <- <-.
    apply (Permutation_in _ Hp) in Hkr. unfold get_node_chunk. rewrite (H3 _ _ Hkr).
    reflexivity.
Qed.

Lemma get_node_chunks_ok_witness :
  exists out, get_node_chunks ExtractorSamples.nested_env 10 [5; 3; 5] = Ok out /\
    NoDup (map fst out) /\ Sorted le (map fst out) /\
    (forall i, In i (map fst out) <-> In i [5; 3; 5]) /\
    (forall i c, In (i, c) out -> get_node_chunk ExtractorSamples.nested_env 10 i = Ok c).
Proof.
  apply get_node_chunks_ok. intros id [<-|[<-|[<-|[]]]]; eexists; reflexivity.
Defined.

End BatchFacts.

(** ** [read_node_ids_from_file] *)
Module NodeIdsFacts.
Import Py Extractor ExtractorApi.
Local Open Scope list_scope.

Definition no_space (s : string) : bool :=
  forallb (fun c => negb (is_space c)) (list_ascii_of_string s).

Definition no_break (s : string) : bool :=
  forallb (fun c => negb (is_line_break c)) (list_ascii_of_string s).

Lemma forallb_rev {A} (f : A -> bool) (l : list A) : forallb f (rev l) = forallb f l.
Proof.
  induction l as [|a l IH]; simpl; [reflexivity|].
  rewrite forallb_app, IH. simpl. rewrite andb_true_r, andb_comm. reflexivity.
Qed.

Lemma drop_spaces_none (l : list ascii) :
  forallb (fun c => negb (is_space c)) l = true -> drop_spaces l = l.
Proof.
  destruct l as [|c l]; simpl; [reflexivity|].
  intro H. apply andb_prop in H as [H _]. destruct (is_space c); [discriminate|reflexivity].
Qed.

Lemma strip_no_space (s : string) : no_space s = true -> strip s = s.
Proof.
  unfold no_space, strip. intro H.
  rewrite (drop_spaces_none (list_ascii_of_string s)) by exact H.
  rewrite (drop_spaces_none (rev (list_ascii_of_string s))) by (rewrite forallb_rev; exact H).
  rewrite rev_involutive. apply string_of_list_ascii_of_string.
Qed.

Lemma drop_spaces_snoc (l : list ascii) (x : ascii) :
  is_space x = false -> exists d, drop_spaces (l ++ [x]) = d ++ [x].
Proof.
  intro Hx. induction l as [|c l IH]; simpl.
  - rewrite Hx. exists []. reflexivity.
  - destruct (is_space c); [exact IH|]. exists (c :: l). reflexivity.
Qed.

Lemma strip_hash (t : string) : exists t', strip (String "#" t) = String "#" t'.
Proof.
  unfold strip. simpl.
  destruct (drop_spaces_snoc (rev (list_ascii_of_string t)) "#" eq_refl) as [d Hd].
  rewrite Hd, rev_app_distr. simpl. eauto.
Qed.

(** The value of a digit string read from the left, starting from [acc]. *)
Fixpoint uint_value (u : Decimal.uint) (acc : Z) : Z :=
  match u with
  | Decimal.Nil => acc
  | Decimal.D0 u => uint_value u (10 * acc + 0)
  | Decimal.D1 u => uint_value u (10 * acc + 1)
  | Decimal.D2 u => uint_value u (10 * acc + 2)
  | Decimal.D3 u => uint_value u (10 * acc + 3)
  | Decimal.D4 u => uint_value u (10 * acc + 4)
  | Decimal.D5 u => uint_value u (10 * acc + 5)
  | Decimal.D6 u => uint_value u (10 * acc + 6)
  | Decimal.D7 u => uint_value u (10 * acc + 7)
  | Decimal.D8 u => uint_value u (10 * acc + 8)
  | Decimal.D9 u => uint_value u (10 * acc + 9)
  end%Z.

Lemma parse_digits_uint (u : Decimal.uint) (acc : Z) :
  parse_digits (NilEmpty.string_of_uint u) acc false = Some (uint_value u acc).
Proof. revert acc; induction u; intro acc; simpl; try apply IHu; reflexivity. Qed.

Lemma uint_value_acc (u : Decimal.uint) (acc : positive) :
  uint_value u (Zpos acc) = Zpos (Pos.of_uint_acc u acc).
Proof.
  revert acc; induction u; intro acc; cbn [uint_value Pos.of_uint_acc]; [reflexivity| | | | | | | | | |];
    rewrite <- IHu; f_equal; rewrite ?Pos2Z.inj_add, Pos2Z.inj_mul; lia.
Qed.

Lemma uint_value_of_uint (u : Decimal.uint) : uint_value u 0 = Z.of_uint u.
Proof.
  unfold Z.of_uint. induction u; simpl; try exact IHu; try reflexivity;
    rewrite <- uint_value_acc; reflexivity.
Qed.

Lemma no_space_uint (u : Decimal.uint) : no_space (NilEmpty.string_of_uint u) = true.
Proof. induction u; simpl; try exact IHu; reflexivity. Qed.

Lemma no_break_uint (u : Decimal.uint) : no_break (NilEmpty.string_of_uint u) = true.
Proof. induction u; simpl; try exact IHu; reflexivity. Qed.

Lemma parse_unsigned_uint (u : Decimal.uint) :
  parse_unsigned (NilZero.string_of_uint u) = Some (Z.of_uint u).
Proof.
  rewrite <- uint_value_of_uint.
  destruct u; simpl; try reflexivity; rewrite parse_digits_uint; reflexivity.
Qed.

Lemma no_space_int (z : Z) : no_space (str (PInt z)) = true.
Proof.
  unfold str, NilZero.string_of_int.
  destruct (Z.to_int z) as [u|u]; unfold NilZero.string_of_uint;
    destruct u; simpl; try reflexivity; apply no_space_uint.
Qed.

Lemma no_break_int (z : Z) : no_break (str (PInt z)) = true.
Proof.
  unfold str, NilZero.string_of_int.
  destruct (Z.to_int z) as [u|u]; unfold NilZero.string_of_uint;
    destruct u; simpl; try reflexivity; apply no_break_uint.
Qed.

Lemma parse_signed_str (z : Z) : parse_signed (str (PInt z)) = Some z.
Proof.
  rewrite <- (DecimalZ.of_to z) at 2.
  unfold str, NilZero.string_of_int.
  destruct (Z.to_int z) as [u|u]; simpl Z.of_int.
  - rewrite <- parse_unsigned_uint.
    destruct u; reflexivity.
  - change (option_map Z.opp (parse_unsigned (NilZero.string_of_uint u)) = Some (- Z.of_uint u)%Z).
    rewrite parse_unsigned_uint. reflexivity.
Qed.

Lemma digit_count_le (s : string) : (digit_count s <= String.length s)%nat.
Proof.
  induction s as [|c s IH]; simpl; [lia|]. destruct (digit_value c); lia.
Qed.

Lemma py_int_str (z : Z) :
  (String.length (str (PInt z)) <= INT_MAX_STR_DIGITS)%nat -> py_int (str (PInt z)) = Some z.
Proof.
  intro Hl. unfold py_int. rewrite strip_no_space by apply no_space_int.
  replace (digit_count (str (PInt z)) <=? INT_MAX_STR_DIGITS)%nat with true
    by (symmetry; apply Nat.leb_le; pose proof (digit_count_le (str (PInt z))); lia).
  apply parse_signed_str.
Qed.

Lemma parse_cons (line : string) (rest : list string) (c : ascii) (r : string) :
  strip line = String c r -> c <> "#"%char ->
  parse_node_ids (line :: rest) =
    match py_int (String c r) with
    | None => inr ValueError
    | Some z => match parse_node_ids rest with inl ids => inl (z :: ids) | inr e => inr e end
    end.
Proof.
  intros Es Hc. cbn [parse_node_ids]. rewrite Es.
  destruct c as [[] [] [] [] [] [] [] []]; try reflexivity.
  exfalso. apply Hc. reflexivity.
Qed.

Lemma int_line (z : Z) : exists c r, str (PInt z) = String c r /\ c <> "#"%char.
Proof.
  pose proof (parse_signed_str z) as H.
  destruct (str (PInt z)) as [|c r]; [discriminate|].
  exists c, r. split; [reflexivity|]. intros ->. discriminate H.
Qed.

(** The lines of a node-id file: an id, a comment, or a blank line. *)
Inductive IdLine :=
| IdEntry (z : Z)
| Comment (text : string)
| Blank.

Definition render (l : IdLine) : string :=
  match l with
  | IdEntry z => str (PInt z)
  | Comment text => String "#" text
  | Blank => EmptyString
  end.

Definition ids_of (lines : list IdLine) : list Z :=
  flat_map (fun l => match l with IdEntry z => [z] | _ => [] end) lines.

(** The file holding those lines, each ended by a newline. *)
Definition file_text (lines : list IdLine) : string :=
  fold_right (fun l acc => (render l ++ String "010" acc)%string) EmptyString lines.

Lemma append_empty (s : string) : (s ++ EmptyString)%string = s.
Proof. induction s as [|c s IH]; simpl; [reflexivity|]. rewrite IH. reflexivity. Qed.

Lemma append_assoc (a b c : string) : ((a ++ b) ++ c)%string = (a ++ b ++ c)%string.
Proof. induction a as [|x a IH]; simpl; [reflexivity|]. rewrite IH. reflexivity. Qed.

Lemma not_cr (c : ascii) : is_line_break c = false -> Ascii.eqb c (ascii_of_nat 13) = false.
Proof. intro H. destruct (Ascii.eqb_spec c (ascii_of_nat 13)) as [->|]; [discriminate|reflexivity]. Qed.

Lemma splitlines_line (s rest cur : string) :
  no_break s = true ->
  splitlines_aux (s ++ String "010" rest) cur = (cur ++ s)%string :: splitlines_aux rest EmptyString.
Proof.
  revert cur; induction s as [|c s IH]; intros cur Hs; simpl.
  - rewrite append_empty. reflexivity.
  - unfold no_break in Hs. simpl in Hs. apply andb_prop in Hs as [Hc Hs].
    apply negb_true_iff in Hc. rewrite not_cr, Hc by exact Hc.
    rewrite IH by exact Hs. rewrite append_assoc. reflexivity.
Qed.

Lemma render_no_break (l : IdLine) :
  (forall text, l = Comment text -> no_break text = true) -> no_break (render l) = true.
Proof.
  destruct l as [z|text|]; simpl; intro H.
  - apply no_break_int.
  - unfold no_break. simpl. apply H. reflexivity.
  - reflexivity.
Qed.

Lemma parse_render (lines : list IdLine) :
  (forall z, In (IdEntry z) lines -> (String.length (str (PInt z)) <= INT_MAX_STR_DIGITS)%nat) ->
  parse_node_ids (map render lines) = inl (ids_of lines).
Proof.
  induction lines as [|l lines IH]; intro Hz; [reflexivity|].
  specialize (IH (fun z Hin => Hz z (or_intror Hin))).
  destruct l as [z|text|]; cbn [map render].
  - destruct (int_line z) as [c [r [E Hc]]].
    rewrite (parse_cons _ _ c r); [|rewrite E; apply strip_no_space; rewrite <- E; apply no_space_int|exact Hc].
    rewrite <- E, py_int_str, IH; [reflexivity|]. apply Hz. left. reflexivity.
  - destruct (strip_hash text) as [t' Ht]. cbn [parse_node_ids render]. rewrite Ht. exact IH.
  - exact IH.
Qed.

(** Extra: a node-id file whose lines are ids (as [str] prints them, in at
    most 4300 characters), comments starting with [#] (7-bit ASCII text
    without a line break), or blank lines reads back as the ids, in order. *)
Theorem read_node_ids_roundtrip (fs : FileSystem) (path : string) (lines : list IdLine) :
  (forall z, In (IdEntry z) lines -> (String.length (str (PInt z)) <= INT_MAX_STR_DIGITS)%nat) ->
  (forall text, In (Comment text) lines -> ascii7 text = true /\ no_break text = true) ->
  lookup fs path = Some (Text (file_text lines)) ->
  read_node_ids_from_file fs path = inl (ids_of lines).
Proof.
  intros Hz Ha Hf.
  assert (Hc : forall text, In (Comment text) lines -> no_break text = true)
    by (intros t Ht; apply (Ha t Ht)).
  clear Ha. unfold read_node_ids_from_file. rewrite Hf.
  rewrite <- (parse_render lines Hz). f_equal.
  clear Hf Hz. revert Hc.
  unfold file_text, splitlines. induction lines as [|l lines IH]; intro Hc; simpl; [reflexivity|].
  rewrite splitlines_line.
  - rewrite IH by (intros t Ht; apply Hc; right; exact Ht). reflexivity.
  - apply render_no_break. intros t ->. apply Hc. left. reflexivity.
Qed.

Definition ids_lines : list IdLine :=
  [Comment " nodes to extract"; IdEntry 12; Blank; IdEntry (-3); IdEntry 0].

Lemma read_node_ids_roundtrip_witness :
  read_node_ids_from_file [("ids.txt", Text (file_text ids_lines))] "ids.txt" = inl [12; -3; 0]%Z.
Proof.
  apply (read_node_ids_roundtrip _ _ ids_lines); [| |reflexivity].
  - intros z Hin. simpl in Hin.
    repeat (destruct Hin as [Hin|Hin];
              [first [injection Hin as <-; apply Nat.leb_le; vm_compute; reflexivity | discriminate Hin]|]).
    destruct Hin.
  - intros text Hin. simpl in Hin.
    repeat (destruct Hin as [Hin|Hin];
              [first [injection Hin as <-; split; reflexivity | discriminate Hin]|]).
    destruct Hin.
Defined.

(** Extra: in a 7-bit ASCII file, one line that is neither blank nor a
    comment and that [int()] rejects makes the whole read raise
    [ValueError], whatever the other lines hold: no partial list is
    returned. *)
Theorem bad_line_fails_read (fs : FileSystem) (path content line : string) (c : ascii)
  (r : string) :
  lookup fs path = Some (Text content) -> ascii7 content = true ->
  In line (splitlines content) ->
  strip line = String c r -> c <> "#"%char -> py_int (String c r) = None ->
  read_node_ids_from_file fs path = inr ValueError.
Proof.
  intros Hf _ Hin Es Hc Hp. unfold read_node_ids_from_file. rewrite Hf.
  induction (splitlines content) as [|l ls IH]; [destruct Hin|].
  destruct Hin as [<-|Hin].
  - rewrite (parse_cons _ _ c r Es Hc), Hp. reflexivity.
  - specialize (IH Hin).
    destruct (strip l) as [|c' r'] eqn:El; [cbn [parse_node_ids]; rewrite El; exact IH|].
    destruct (Ascii.eqb_spec c' "#") as [->|Hc'].
    + cbn [parse_node_ids]. rewrite El. exact IH.
    + rewrite (parse_cons l ls c' r' El Hc').
      destruct (py_int (String c' r')); [|reflexivity]. rewrite IH. reflexivity.
Qed.

Lemma bad_line_fails_read_witness :
  read_node_ids_from_file [("ids.txt", Text "12
 4x
7
")] "ids.txt" = inr ValueError.
Proof.
  apply (bad_line_fails_read _ _ "12
 4x
7
" " 4x" "4" "x"); try reflexivity.
  - simpl. auto.
  - discriminate.
Defined.

End NodeIdsFacts.
